(** * HACS base: registry lookups, critical-repository guard, blacklist
      enforcement and the recurring sweeps

    A shallow embedding of [custom_components/hacs/hacsbase/__init__.py].

    The class attributes of [Hacs], [HacsCommon] and [HacsStatus] that the
    methods read and write form the record [World].  Calls that leave the
    file (logger, event bus, store, task factory, repository objects, host
    control) are recorded as [Event]s, each stamped with the value the
    background-task flag had when the call was made.  What those
    collaborators answer is gathered in the record [Env].

    Collaborators are taken to return.  The exceptions followed are the
    ones the file itself deals with: those of the fetch of the critical
    list, caught when it is [AIOGitHubException] and let through otherwise
    ([json.loads] rejecting the document included), and the
    [AttributeError] of reading [.status] off a [None]. *)

From Stdlib Require Import List String Ascii Bool Arith Lia Permutation Sorted.
Import ListNotations.
Open Scope string_scope.
Open Scope list_scope.

Set Implicit Arguments.

(* ------------------------------------------------------------------ *)
(** ** Strings: [str.lower] on repository full names *)

Module Str.

(** Full names are GitHub [owner/name] strings, hence ASCII; on ASCII
    [str.lower] maps [A-Z] to [a-z] and leaves every other character. *)
Definition is_upper (c : ascii) : bool :=
  Nat.leb 65 (nat_of_ascii c) && Nat.leb (nat_of_ascii c) 90.

Definition lower_ascii (c : ascii) : ascii :=
  if is_upper c then ascii_of_nat (nat_of_ascii c + 32) else c.

Fixpoint lower (s : string) : string :=
  match s with
  | EmptyString => EmptyString
  | String c s' => String (lower_ascii c) (lower s')
  end.

(** Two characters are the same letter when they are equal or one is the
    lower-case form of the other, an upper-case letter. *)
Definition same_letter (c d : ascii) : Prop :=
  c = d \/ (is_upper c = true /\ d = lower_ascii c)
        \/ (is_upper d = true /\ c = lower_ascii d).

(** Equality of names up to letter case, stated without [lower]. *)
Inductive eq_upto_case : string -> string -> Prop :=
| euc_nil : eq_upto_case EmptyString EmptyString
| euc_cons c d s t :
    same_letter c d -> eq_upto_case s t ->
    eq_upto_case (String c s) (String d t).

(** Python's [x in l] on a list of strings. *)
Definition mem (x : string) (l : list string) : bool :=
  existsb (String.eqb x) l.

End Str.

(* ------------------------------------------------------------------ *)
(** ** Repository entries and the registry lookups *)

(** The attributes of a repository object that this file reads.  The
    source reads the installed flag through two accessors,
    [repo.installed] in the critical guard and [repository.status.installed]
    everywhere else; both are kept. *)
Record Repository := mkRepository {
  uid : string;               (* information.uid *)
  full_name : string;         (* data.full_name *)
  category : string;          (* data.category *)
  installed : bool;           (* installed *)
  status_installed : bool     (* status.installed *)
}.

Module Registry.

(** [Hacs.get_by_id]: the first entry whose uid equals the argument; the
    [try]/[except Exception: pass] around the scan falls through to
    [return None]. *)
Fixpoint get_by_id (repositories : list Repository) (repository_id : string)
  : option Repository :=
  match repositories with
  | [] => None
  | repository :: rest =>
      if String.eqb (uid repository) repository_id then Some repository
      else get_by_id rest repository_id
  end.

(** [Hacs.get_by_name]. *)
Fixpoint get_by_name (repositories : list Repository)
         (repository_full_name : string) : option Repository :=
  match repositories with
  | [] => None
  | repository :: rest =>
      if String.eqb (Str.lower (full_name repository))
                    (Str.lower repository_full_name)
      then Some repository
      else get_by_name rest repository_full_name
  end.

(** [Hacs.is_known]. *)
Definition is_known (repositories : list Repository)
           (repository_full_name : string) : bool :=
  Str.mem (Str.lower repository_full_name)
          (map (fun x => Str.lower (full_name x)) repositories).

End Registry.

(* ------------------------------------------------------------------ *)
(** ** Data carried by the guard, the store and the task factory *)

(** One entry of the remote critical feed: [repository["repository"]],
    [repository["reason"]], [repository["link"]]. *)
Record Advisory := mkAdvisory {
  adv_repository : string;
  adv_reason : string;
  adv_link : string
}.

(** One record of the persisted ["critical"] store. *)
Record Stored := mkStored {
  st_repository : string;
  st_reason : string;
  st_link : string;
  st_acknowledged : bool
}.

(** What the task factory is handed: [safe_update(repository)],
    [safe_common_update(repository)], [safe_register(repo, category)]. *)
Inductive Task :=
| SafeUpdate (repository : Repository)
| SafeCommonUpdate (repository : Repository)
| SafeRegister (repo : string) (category : string).

(** The sweeps armed by [async_track_time_interval]. *)
Inductive Sweep := InstalledSweep | FullSweep.

Inductive exn :=
| AIOGitHubException
| JSONDecodeError
| OtherException (name : string).

(** [except AIOGitHubException]. *)
Definition is_AIOGitHubException (e : exn) : bool :=
  match e with AIOGitHubException => true | _ => false end.

(** What [data_repo.get_contents("critical")] followed by [json.loads]
    yields: the call raises, or it returns a document which [json.loads]
    either rejects ([None]) or decodes to a list of advisories. *)
Inductive Remote :=
| RemoteRaises (e : exn)
| RemoteContent (doc : option (list Advisory)).

Inductive Level := Debug | Info | Warning | Critical.

Inductive Message :=
| Text (s : string)
| RatelimitsRemaining      (* self.github.ratelimits.remaining *)
| RatelimitsResetUtc.      (* self.github.ratelimits.reset_utc *)

Inductive JValue := JBool (b : bool) | JStr (s : string).

(** The calls that leave the file. *)
Inductive Event :=
| Log (level : Level) (msg : Message)
| BusFire (topic : string) (payload : list (string * JValue))
| SetupExtraStores
| PersistentNotification (title message : string)
| RemovedType (name removal_type : string)  (* get_removed(name).removal_type = t *)
| RemovedUpdate (name : string) (data : Stored) (* get_removed(name).update_data(d) *)
| RepoRemove (repo : Repository)            (* repo.remove() *)
| RepoUninstall (repo : Repository)         (* await repo.uninstall() *)
| StoreSave (key : string) (value : list Stored)
| AsyncStop (code : nat)                    (* hass.async_create_task(hass.async_stop(n)) *)
| DataWrite                                 (* await self.data.async_write() *)
| FactoryExecute (batch : list Task)
| TrackTimeInterval (sweep : Sweep) (minutes : nat)
| RegisterRepository (name category : string) (check : bool).

(** An event together with [system.status.background_task] at that time. *)
Record Obs := mkObs { flag_at : bool; event : Event }.

(* ------------------------------------------------------------------ *)
(** ** The state the methods share, and what collaborators answer *)

Record World := mkWorld {
  repositories : list Repository;           (* Hacs.repositories *)
  blacklist : list string;                  (* common.blacklist *)
  default : list string;                    (* common.default *)
  categories : list string;                 (* common.categories *)
  tasks : list Task;                        (* factory.tasks *)
  recuring_tasks : list (Sweep * nat);      (* Hacs.recuring_tasks *)
  status_startup : bool;                    (* system.status.startup *)
  status_new : bool;                        (* system.status.new *)
  background_task : bool;                   (* system.status.background_task *)
  store_critical : option (list Stored)     (* host store, key "critical" *)
}.

Record Env := mkEnv {
  critical_contents : Remote;
  default_repos_lists : string -> list string;  (* get_default_repos_lists(.., category) *)
  default_repos_orgs : string -> list string;   (* get_default_repos_orgs(.., category) *)
  (** effect on the registry of [repo.remove()], [repo.uninstall()], of one
      [factory.execute()] batch and of the [register_repository] helper *)
  repo_remove : Repository -> list Repository -> list Repository;
  repo_uninstall : Repository -> list Repository -> list Repository;
  factory_execute : list Task -> list Repository -> list Repository;
  helper_register : string -> string -> bool -> list Repository -> list Repository
}.

Definition set_repositories (v : list Repository) (w : World) : World :=
  mkWorld v (blacklist w) (default w) (categories w) (tasks w)
          (recuring_tasks w) (status_startup w) (status_new w)
          (background_task w) (store_critical w).
Definition set_blacklist (v : list string) (w : World) : World :=
  mkWorld (repositories w) v (default w) (categories w) (tasks w)
          (recuring_tasks w) (status_startup w) (status_new w)
          (background_task w) (store_critical w).
Definition set_default (v : list string) (w : World) : World :=
  mkWorld (repositories w) (blacklist w) v (categories w) (tasks w)
          (recuring_tasks w) (status_startup w) (status_new w)
          (background_task w) (store_critical w).
Definition set_tasks (v : list Task) (w : World) : World :=
  mkWorld (repositories w) (blacklist w) (default w) (categories w) v
          (recuring_tasks w) (status_startup w) (status_new w)
          (background_task w) (store_critical w).
Definition set_recuring_tasks (v : list (Sweep * nat)) (w : World) : World :=
  mkWorld (repositories w) (blacklist w) (default w) (categories w) (tasks w)
          v (status_startup w) (status_new w)
          (background_task w) (store_critical w).
Definition set_status_startup (v : bool) (w : World) : World :=
  mkWorld (repositories w) (blacklist w) (default w) (categories w) (tasks w)
          (recuring_tasks w) v (status_new w)
          (background_task w) (store_critical w).
Definition set_status_new (v : bool) (w : World) : World :=
  mkWorld (repositories w) (blacklist w) (default w) (categories w) (tasks w)
          (recuring_tasks w) (status_startup w) v
          (background_task w) (store_critical w).
Definition set_background_task (v : bool) (w : World) : World :=
  mkWorld (repositories w) (blacklist w) (default w) (categories w) (tasks w)
          (recuring_tasks w) (status_startup w) (status_new w)
          v (store_critical w).
Definition set_store_critical (v : option (list Stored)) (w : World) : World :=
  mkWorld (repositories w) (blacklist w) (default w) (categories w) (tasks w)
          (recuring_tasks w) (status_startup w) (status_new w)
          (background_task w) v.

(* ------------------------------------------------------------------ *)
(** ** State, exceptions and observed events *)

Inductive result (A : Type) :=
| Ok (a : A)
| Raise (e : exn).
Arguments Ok {A} a.
Arguments Raise {A} e.

(** A method run from a world: how it ends, the world it leaves (also when
    it raises: Python keeps every mutation made before the exception), and
    the events it produced, oldest first. *)
Definition M (A : Type) : Type := World -> result A * World * list Obs.

Definition ret {A} (a : A) : M A := fun w => (Ok a, w, []).

Definition bind {A B} (m : M A) (k : A -> M B) : M B :=
  fun w =>
    match m w with
    | (Ok a, w1, e1) =>
        match k a w1 with
        | (r, w2, e2) => (r, w2, e1 ++ e2)
        end
    | (Raise e, w1, e1) => (Raise e, w1, e1)
    end.

Notation "x <- m ;; k" := (bind m (fun x => k))
  (at level 61, m at next level, right associativity).
Notation "m ;; k" := (bind m (fun _ => k))
  (at level 61, right associativity).

Definition raise {A} (e : exn) : M A := fun w => (Raise e, w, []).
Definition get : M World := fun w => (Ok w, w, []).
Definition modify (f : World -> World) : M unit := fun w => (Ok tt, f w, []).
Definition emit (e : Event) : M unit :=
  fun w => (Ok tt, w, [mkObs (background_task w) e]).

(** [try: m except <handles>: h]. *)
Definition try_except {A} (m : M A) (handles : exn -> bool) (h : M A) : M A :=
  fun w =>
    match m w with
    | (Raise e, w1, e1) =>
        if handles e
        then match h w1 with (r, w2, e2) => (r, w2, e1 ++ e2) end
        else (Raise e, w1, e1)
    | ok => ok
    end.

(** [for x in l: body], the body threading the loop's local variables. *)
Fixpoint for_fold {A S} (l : list A) (s : S) (body : A -> S -> M S) : M S :=
  match l with
  | [] => ret s
  | x :: l' => s' <- body x s ;; for_fold l' s' body
  end.

Definition for_each {A} (l : list A) (body : A -> M unit) : M unit :=
  for_fold l tt (fun x _ => body x).

Definition when (b : bool) (m : M unit) : M unit := if b then m else ret tt.

Definition outcome {A} (r : result A * World * list Obs) : result A := fst (fst r).
Definition world_of {A} (r : result A * World * list Obs) : World := snd (fst r).
Definition events_of {A} (r : result A * World * list Obs) : list Event :=
  map event (snd r).
Definition observed {A} (r : result A * World * list Obs) : list Obs := snd r.

(* ------------------------------------------------------------------ *)
(** ** The methods of [Hacs] *)

(** The dict built by [get_repositories]: keys in insertion order, a
    second assignment to a key replacing its value in place. *)
Definition dict := list (string * list string).

Fixpoint dict_set (k : string) (v : list string) (d : dict) : dict :=
  match d with
  | [] => [(k, v)]
  | (k', v') :: d' =>
      if String.eqb k' k then (k, v) :: d' else (k', v') :: dict_set k v d'
  end.

Module Hacs.

Definition status_topic : string := "hacs/status".

(** [Hacs.register_repository(full_name, category, check=True)]: the
    helper is called with the literal [check=True]. *)
Definition register_repository (env : Env) (full_name category : string)
           (check : bool) : M unit :=
  emit (RegisterRepository full_name category true) ;;
  modify (fun w =>
    set_repositories
      (helper_register env full_name category true (repositories w)) w).

(** Modelled from the spec: [HacsTaskFactory.execute], called here as
    [await self.factory.execute()], is not part of this file; it runs the
    queued batch, whose effect on the registry is [factory_execute env],
    and resets the queue afterwards. *)
Definition factory_execute_batch (env : Env) : M unit :=
  w <- get ;;
  emit (FactoryExecute (tasks w)) ;;
  modify (fun w =>
    set_tasks [] (set_repositories
                    (factory_execute env (tasks w) (repositories w)) w)).

(** [Hacs.handle_critical_repositories_startup]. *)
Definition handle_critical_repositories_startup : M unit :=
  w <- get ;;
  match store_critical w with
  | None => ret tt
  | Some [] => ret tt
  | Some critical =>
      alert <- for_fold critical false (fun repo alert =>
                 if negb (st_acknowledged repo) then ret true
                 else ret alert) ;;
      when alert
        (emit (Log Critical (Text "URGENT!: Check the HACS panel!")) ;;
         emit (PersistentNotification "URGENT!" "**Check the HACS panel!**"))
  end.

(** [critical = await self.data_repo.get_contents("critical")] and
    [critical = json.loads(critical.content)]. *)
Definition get_critical (env : Env) : M (list Advisory) :=
  match critical_contents env with
  | RemoteRaises e => raise e
  | RemoteContent None => raise JSONDecodeError
  | RemoteContent (Some critical) => ret critical
  end.

Definition removing_message (name : string) : Message :=
  Text (String.append "Removing repository "
          (String.append name ", it is marked as critical")).

(** The body of [for repository in critical]; the loop's local variables
    are [was_installed] and [stored_critical]. *)
Definition critical_step (env : Env) (instored : list string)
           (repository : Advisory) (locals : bool * list Stored)
  : M (bool * list Stored) :=
  let name := adv_repository repository in
  modify (fun w => set_blacklist (blacklist w ++ [name]) w) ;;
  emit (RemovedType name "critical") ;;
  w <- get ;;
  let repo := Registry.get_by_name (repositories w) name in
  let stored := mkStored name (adv_reason repository)
                         (adv_link repository) true in
  r <- (if negb (Str.mem name instored) then
          match repo with
          | Some repo =>
              if installed repo then
                emit (Log Critical (removing_message name)) ;;
                emit (RepoRemove repo) ;;
                modify (fun w =>
                  set_repositories (repo_remove env repo (repositories w)) w) ;;
                emit (RepoUninstall repo) ;;
                modify (fun w =>
                  set_repositories (repo_uninstall env repo (repositories w)) w) ;;
                ret (true, mkStored name (adv_reason repository)
                                    (adv_link repository) false)
              else ret (fst locals, stored)
          | None => ret (fst locals, stored)
          end
        else ret (fst locals, stored)) ;;
  emit (RemovedUpdate name (snd r)) ;;
  ret (fst r, snd locals ++ [snd r]).

(** [Hacs.handle_critical_repositories]. *)
Definition handle_critical_repositories (env : Env) : M unit :=
  critical <- try_except (get_critical env) is_AIOGitHubException (ret []) ;;
  match critical with
  | [] => emit (Log Debug (Text "No critical repositories"))
  | _ =>
      w <- get ;;
      let instored :=
        map st_repository
            (match store_critical w with Some l => l | None => [] end) in
      locals <- for_fold critical (false, []) (critical_step env instored) ;;
      emit (StoreSave "critical" (snd locals)) ;;
      modify (set_store_critical (Some (snd locals))) ;;
      when (fst locals)
        (emit (Log Critical (Text "Resarting Home Assistant")) ;;
         emit (AsyncStop 100))
  end.

Definition blacklisted_message (name : string) : Message :=
  Text (String.append "You have "
          (String.append name
             " installed with HACS this repository has been blacklisted, please consider removing it.")).

(** The body of [for repository in self.common.blacklist]; the loop's
    local variable is [need_to_save].  Reading [.status] off a [None]
    returned by [get_by_name] would raise [AttributeError]. *)
Definition blacklist_step (env : Env) (name : string) (need_to_save : bool)
  : M bool :=
  w <- get ;;
  if Registry.is_known (repositories w) name then
    match Registry.get_by_name (repositories w) name with
    | Some repository =>
        if status_installed repository then
          emit (Log Warning (blacklisted_message (full_name repository))) ;;
          ret need_to_save
        else
          emit (RepoRemove repository) ;;
          modify (fun w =>
            set_repositories
              (repo_remove env repository (repositories w)) w) ;;
          ret true
    | None => raise (OtherException "AttributeError")
    end
  else ret need_to_save.

(** [Hacs.clear_out_blacklisted_repositories]. *)
Definition clear_out_blacklisted_repositories (env : Env) : M unit :=
  w <- get ;;
  need_to_save <- for_fold (blacklist w) false (blacklist_step env) ;;
  when need_to_save (emit DataWrite).

(** [Hacs.get_repositories]. *)
Definition get_repositories (env : Env) : M dict :=
  w <- get ;;
  let repositories :=
    fold_left
      (fun d category =>
         dict_set category
                  (default_repos_lists env category
                     ++ default_repos_orgs env category) d)
      (categories w) [] in
  for_each repositories (fun entry =>
    for_each (snd entry) (fun repo =>
      w <- get ;;
      when (negb (Str.mem repo (default w)))
           (modify (fun w => set_default (default w ++ [repo]) w)))) ;;
  ret repositories.

(** [Hacs.load_known_repositories]. *)
Definition load_known_repositories (env : Env) : M unit :=
  emit (Log Info (Text "Loading known repositories")) ;;
  listed <- get_repositories env ;;
  for_each (default_repos_lists env "blacklist") (fun item =>
    w <- get ;;
    when (negb (Str.mem item (blacklist w)))
         (emit (RemovedType item "blacklist") ;;
          modify (fun w => set_blacklist (blacklist w ++ [item]) w))) ;;
  for_each listed (fun entry =>
    for_each (snd entry) (fun repo =>
      w <- get ;;
      if Str.mem repo (blacklist w) then ret tt
      else if Registry.is_known (repositories w) repo then ret tt
      else modify (fun w =>
             set_tasks (tasks w ++ [SafeRegister repo (fst entry)]) w))) ;;
  factory_execute_batch env ;;
  emit (Log Info (Text "Loading known repositories finished")).

(** [Hacs.recuring_tasks_installed]. *)
Definition recuring_tasks_installed (env : Env) : M unit :=
  emit (Log Debug
          (Text "Starting recuring background task for installed repositories")) ;;
  modify (set_background_task true) ;;
  emit (BusFire status_topic []) ;;
  emit (Log Debug RatelimitsRemaining) ;;
  emit (Log Debug RatelimitsResetUtc) ;;
  w <- get ;;
  for_each (repositories w) (fun repository =>
    w <- get ;;
    when (status_installed repository
          && Str.mem (category repository) (categories w))
         (modify (fun w =>
            set_tasks (tasks w ++ [SafeUpdate repository]) w))) ;;
  factory_execute_batch env ;;
  handle_critical_repositories env ;;
  modify (set_background_task false) ;;
  emit (BusFire status_topic []) ;;
  emit DataWrite ;;
  emit (Log Debug
          (Text "Recuring background task for installed repositories done")).

(** [Hacs.recuring_tasks_all]. *)
Definition recuring_tasks_all (env : Env) : M unit :=
  emit (Log Debug
          (Text "Starting recuring background task for all repositories")) ;;
  emit SetupExtraStores ;;
  modify (set_background_task true) ;;
  emit (BusFire status_topic []) ;;
  emit (Log Debug RatelimitsRemaining) ;;
  emit (Log Debug RatelimitsResetUtc) ;;
  w <- get ;;
  for_each (repositories w) (fun repository =>
    w <- get ;;
    when (Str.mem (category repository) (categories w))
         (modify (fun w =>
            set_tasks (tasks w ++ [SafeCommonUpdate repository]) w))) ;;
  factory_execute_batch env ;;
  load_known_repositories env ;;
  clear_out_blacklisted_repositories env ;;
  modify (set_background_task false) ;;
  emit DataWrite ;;
  emit (BusFire status_topic []) ;;
  emit (BusFire "hacs/repository" [("action", JStr "reload")]) ;;
  emit (Log Debug
          (Text "Recuring background task for all repositories done")).

(** [Hacs.startup_tasks].  [env] answers the calls of the startup steps,
    [env'] those of the installed sweep run at its end. *)
Definition startup_tasks (env env' : Env) : M unit :=
  modify (set_background_task true) ;;
  emit SetupExtraStores ;;
  emit (BusFire status_topic []) ;;
  emit (Log Debug RatelimitsRemaining) ;;
  emit (Log Debug RatelimitsResetUtc) ;;
  handle_critical_repositories_startup ;;
  handle_critical_repositories env ;;
  load_known_repositories env ;;
  clear_out_blacklisted_repositories env ;;
  emit (TrackTimeInterval InstalledSweep 30) ;;
  modify (fun w =>
    set_recuring_tasks (recuring_tasks w ++ [(InstalledSweep, 30)]) w) ;;
  emit (TrackTimeInterval FullSweep 800) ;;
  modify (fun w =>
    set_recuring_tasks (recuring_tasks w ++ [(FullSweep, 800)]) w) ;;
  emit (BusFire "hacs/reload" [("force", JBool true)]) ;;
  recuring_tasks_installed env' ;;
  modify (set_status_startup false) ;;
  modify (set_status_new false) ;;
  modify (set_background_task false) ;;
  emit (BusFire status_topic []) ;;
  emit DataWrite.

End Hacs.

(* ------------------------------------------------------------------ *)
(** ** Reading a run's events *)

Definition is_remove (e : Event) : bool :=
  match e with RepoRemove _ => true | _ => false end.
Definition is_uninstall (e : Event) : bool :=
  match e with RepoUninstall _ => true | _ => false end.
Definition is_forced (e : Event) : bool := is_remove e || is_uninstall e.
Definition is_restart (e : Event) : bool :=
  match e with AsyncStop _ => true | _ => false end.
Definition is_write (e : Event) : bool :=
  match e with DataWrite => true | _ => false end.
Definition is_status (e : Event) : bool :=
  match e with
  | BusFire topic _ => String.eqb topic Hacs.status_topic
  | _ => false
  end.

Definition count (p : Event -> bool) (l : list Event) : nat :=
  List.length (filter p l).

Definition is_raise {A} (r : result A) : bool :=
  match r with Ok _ => false | Raise _ => true end.

(** The observations strictly after the first status notification ... *)
Fixpoint after_first_status (obs : list Obs) : list Obs :=
  match obs with
  | [] => []
  | o :: rest => if is_status (event o) then rest else after_first_status rest
  end.

(** ... and, of those, the ones strictly before the last one. *)
Definition between_status (obs : list Obs) : list Obs :=
  rev (after_first_status (rev (after_first_status obs))).

Definition first_status (obs : list Obs) : option Obs :=
  find (fun o => is_status (event o)) obs.

(** The repository names of the persisted advisory set. *)
Definition persisted_names (w : World) : list string :=
  map st_repository (match store_critical w with Some l => l | None => [] end).

(** A method that leaves the background-task flag alone and only makes
    calls of the kind [allow]. *)
Definition steady {A} (allow : Event -> bool) (m : M A) : Prop :=
  forall w,
    background_task (world_of (m w)) = background_task w /\
    Forall (fun o => flag_at o = background_task w /\ allow (event o) = true)
           (observed (m w)).

(** A method whose final world is always related to its initial one. *)
Definition respects {A} (R : World -> World -> Prop) (m : M A) : Prop :=
  forall w, R w (world_of (m w)).

(** The blacklist of [w'] is that of [w] with names added at its end. *)
Definition blacklist_grows (w w' : World) : Prop :=
  exists added, blacklist w' = blacklist w ++ added.

(** A blacklist without duplicates stays without duplicates. *)
Definition keeps_nodup (w w' : World) : Prop :=
  NoDup (blacklist w) -> NoDup (blacklist w').

(** [post m w Q]: the run of [m] from [w] ends in an outcome, a world and
    events that satisfy [Q]. *)
Definition post {A} (m : M A) (w : World)
           (Q : result A -> World -> list Obs -> Prop) : Prop :=
  Q (outcome (m w)) (world_of (m w)) (observed (m w)).

(** Observations made while the flag was set, of calls of the kind
    [allow]. *)
Definition flagged (allow : Event -> bool) (obs : list Obs) : Prop :=
  Forall (fun o => flag_at o = true /\ allow (event o) = true) obs.

(** The observations that open and close the sweeps. *)
Definition installed_opening (w : World) : list Obs :=
  [mkObs (background_task w)
     (Log Debug
        (Text "Starting recuring background task for installed repositories"));
   mkObs true (BusFire Hacs.status_topic [])].

Definition installed_closing : list Obs :=
  [mkObs false (BusFire Hacs.status_topic []);
   mkObs false DataWrite;
   mkObs false
     (Log Debug
        (Text "Recuring background task for installed repositories done"))].

Definition all_opening (w : World) : list Obs :=
  [mkObs (background_task w)
     (Log Debug (Text "Starting recuring background task for all repositories"));
   mkObs (background_task w) SetupExtraStores;
   mkObs true (BusFire Hacs.status_topic [])].

Definition all_closing : list Obs :=
  [mkObs false DataWrite;
   mkObs false (BusFire Hacs.status_topic []);
   mkObs false (BusFire "hacs/repository" [("action", JStr "reload")]);
   mkObs false
     (Log Debug (Text "Recuring background task for all repositories done"))].

Definition startup_opening : list Obs :=
  [mkObs true SetupExtraStores; mkObs true (BusFire Hacs.status_topic [])].

Definition startup_arming : list Obs :=
  [mkObs true (TrackTimeInterval InstalledSweep 30);
   mkObs true (TrackTimeInterval FullSweep 800);
   mkObs true (BusFire "hacs/reload" [("force", JBool true)])].

Definition startup_closing : list Obs :=
  [mkObs false (BusFire Hacs.status_topic []); mkObs false DataWrite].

(** The enforcer writes once exactly when it unregistered something. *)
Definition writes_iff_removed (es : list Obs) : Prop :=
  count is_write (map event es) =
    (if existsb is_remove (map event es) then 1 else 0).

(** How a guard pass ends, read off what the remote answers: only an
    exception other than the GitHub one, or a document that does not
    decode, leaves the method. *)
Definition fetch_outcome (env : Env) : result unit :=
  match critical_contents env with
  | RemoteRaises e => if is_AIOGitHubException e then Ok tt else Raise e
  | RemoteContent None => Raise JSONDecodeError
  | RemoteContent (Some _) => Ok tt
  end.

(** A method that never raises. *)
Definition total {A} (m : M A) : Prop :=
  forall w, exists a, outcome (m w) = Ok a.

Definition no_write_no_status (e : Event) : bool :=
  negb (is_write e) && negb (is_status e).
Definition no_status (e : Event) : bool := negb (is_status e).
Definition quiet (e : Event) : bool :=
  negb (is_write e) && negb (is_status e) && negb (is_remove e).

(** The tests of [critical_step] that lead to the forced removal, with the
    entry they select. *)
Definition forced_target (instored : list string) (regs : list Repository)
           (a : Advisory) : option Repository :=
  if negb (Str.mem (adv_repository a) instored) then
    match Registry.get_by_name regs (adv_repository a) with
    | Some repo => if installed repo then Some repo else None
    | None => None
    end
  else None.

(** The tests of [blacklist_step], with the entry they select. *)
Definition blacklisted_entry (regs : list Repository) (name : string)
  : option Repository :=
  if Registry.is_known regs name then Registry.get_by_name regs name
  else None.

Definition stamp (w : World) (l : list Event) : list Obs :=
  map (mkObs (background_task w)) l.

(** What the guard's early [return] leaves behind. *)
Definition early_return (w : World) : result unit * World * list Obs :=
  (Ok tt, w, stamp w [Log Debug (Text "No critical repositories")]).

(* ------------------------------------------------------------------ *)
(** ** The guard and the enforcer as the specification words them *)

Module Spec.

(** The record persisted for an advisory. *)
Definition record (a : Advisory) (acknowledged : bool) : Stored :=
  mkStored (adv_repository a) (adv_reason a) (adv_link a) acknowledged.

(** The advisory's name was absent from the previously persisted set and
    the repository is known in the registry and currently installed;
    [r] is the matching entry. *)
Definition newly_critical (instored : list string) (regs : list Repository)
           (a : Advisory) (r : Repository) : Prop :=
  ~ In (adv_repository a) instored /\
  Registry.is_known regs (adv_repository a) = true /\
  Registry.get_by_name regs (adv_repository a) = Some r /\
  installed r = true.

(** One guard pass over the feed, advisory by advisory, from registry
    [regs]: the forced removals it makes (each a [remove] followed by an
    [uninstall]), the records it persists, and the registry it leaves.
    An advisory forces a removal exactly when it is newly critical for
    the registry as it stands when the advisory is reached. *)
Inductive GuardRun (env : Env) (instored : list string)
  : list Repository -> list Advisory -> list Event -> list Stored
    -> list Repository -> Prop :=
| guard_done regs :
    GuardRun env instored regs [] [] [] regs
| guard_forced regs a rest r evs recs regs' :
    newly_critical instored regs a r ->
    GuardRun env instored
             (repo_uninstall env r (repo_remove env r regs))
             rest evs recs regs' ->
    GuardRun env instored regs (a :: rest)
             (RepoRemove r :: RepoUninstall r :: evs)
             (record a false :: recs) regs'
| guard_acknowledged regs a rest evs recs regs' :
    (forall r, ~ newly_critical instored regs a r) ->
    GuardRun env instored regs rest evs recs regs' ->
    GuardRun env instored regs (a :: rest) evs
             (record a true :: recs) regs'.

(** One enforcer pass over the blacklist, name by name: a name that is
    not known is skipped, a known installed one is warned about, a known
    one that is not installed is unregistered. *)
Inductive EnforcerRun (env : Env)
  : list Repository -> list string -> list Event -> list Repository
    -> Prop :=
| enforce_done regs :
    EnforcerRun env regs [] [] regs
| enforce_unknown regs name rest evs regs' :
    Registry.is_known regs name = false ->
    EnforcerRun env regs rest evs regs' ->
    EnforcerRun env regs (name :: rest) evs regs'
| enforce_warn regs name rest r evs regs' :
    Registry.is_known regs name = true ->
    Registry.get_by_name regs name = Some r ->
    status_installed r = true ->
    EnforcerRun env regs rest evs regs' ->
    EnforcerRun env regs (name :: rest)
                (Log Warning (Hacs.blacklisted_message (full_name r)) :: evs)
                regs'
| enforce_unregister regs name rest r evs regs' :
    Registry.is_known regs name = true ->
    Registry.get_by_name regs name = Some r ->
    status_installed r = false ->
    EnforcerRun env (repo_remove env r regs) rest evs regs' ->
    EnforcerRun env regs (name :: rest) (RepoRemove r :: evs) regs'.

End Spec.

(* ------------------------------------------------------------------ *)
(** ** Concrete registries, feeds and collaborators *)

Module Sample.

(** Modelled from the spec: the repository class is not part of this
    file; unregistering deletes the entry from the registry. *)
Definition unregister (r : Repository) (regs : list Repository)
  : list Repository :=
  filter (fun x => negb (String.eqb (uid x) (uid r))) regs.

(** Modelled from the spec: uninstalling clears the installed flags of the
    entry, if it is still registered. *)
Definition uninstall (r : Repository) (regs : list Repository)
  : list Repository :=
  map (fun x => if String.eqb (uid x) (uid r)
                then mkRepository (uid x) (full_name x) (category x)
                                  false false
                else x) regs.

(** Collaborators whose feeds are all empty apart from the critical one,
    and whose task batches leave the registry as it is. *)
Definition env_with (critical : Remote) (blacklist_feed : list string) : Env :=
  mkEnv critical
        (fun category =>
           if String.eqb category "blacklist" then blacklist_feed else [])
        (fun _ => [])
        unregister uninstall
        (fun _ regs => regs)
        (fun _ _ _ regs => regs).

Definition theme_x : Repository :=
  mkRepository "1" "alice/theme-x" "theme" true true.
Definition plugin_y : Repository :=
  mkRepository "2" "bob/plugin-y" "plugin" false false.

Definition malware : Advisory :=
  mkAdvisory "alice/theme-x" "malware" "https://example.invalid/advisory".

(** The class attributes as they are initialised, with a registry. *)
Definition world_with (regs : list Repository) (blacklisted : list string)
  : World :=
  mkWorld regs blacklisted [] ["theme"; "plugin"] [] [] true false false None.

Definition env_quiet : Env := env_with (RemoteContent (Some [])) [].
Definition env_malware : Env := env_with (RemoteContent (Some [malware])) [].
Definition env_undecodable : Env := env_with (RemoteContent None) [].
Definition env_unavailable : Env :=
  env_with (RemoteRaises AIOGitHubException) [].

End Sample.

(* ------------------------------------------------------------------ *)
(** ** The sorted views of the registry *)

Module Views.

(** [sorted(l, key=...)] on string keys: Python's sort is stable and
    compares strings by code point, which on ASCII names is
    [String.leb].  Insertion from the right, each entry placed before the
    first one whose key is not smaller, is such a stable sort. *)
Fixpoint insert_by (key : Repository -> string) (x : Repository)
         (l : list Repository) : list Repository :=
  match l with
  | [] => [x]
  | y :: rest =>
      if String.leb (key x) (key y) then x :: y :: rest
      else y :: insert_by key x rest
  end.

Fixpoint sorted_by (key : Repository -> string) (l : list Repository)
  : list Repository :=
  match l with
  | [] => []
  | x :: rest => insert_by key x (sorted_by key rest)
  end.

(** [Hacs.sorted_by_name]; [display_name] is a property of the repository
    class, which is not part of this file. *)
Definition sorted_by_name (display_name : Repository -> string)
           (repositories : list Repository) : list Repository :=
  sorted_by display_name repositories.

(** [Hacs.sorted_by_repository_name]. *)
Definition sorted_by_repository_name (repositories : list Repository)
  : list Repository :=
  sorted_by full_name repositories.

End Views.

(* ------------------------------------------------------------------ *)
(** ** Further readings of a run *)

(** The relation "the part [f] of the world is left as it was". *)
Definition keeps {B} (f : World -> B) (w w' : World) : Prop := f w' = f w.

(** The batches handed to the task factory, oldest first. *)
Fixpoint batches (l : list Event) : list (list Task) :=
  match l with
  | [] => []
  | FactoryExecute batch :: rest => batch :: batches rest
  | _ :: rest => batches rest
  end.

(** The timers armed, oldest first. *)
Fixpoint timers (l : list Event) : list (Sweep * nat) :=
  match l with
  | [] => []
  | TrackTimeInterval sweep minutes :: rest => (sweep, minutes) :: timers rest
  | _ :: rest => timers rest
  end.

Definition is_store_save (e : Event) : bool :=
  match e with StoreSave _ _ => true | _ => false end.

(** Calls that neither uninstall, nor restart, nor save the advisories. *)
Definition harmless (e : Event) : bool :=
  negb (is_uninstall e) && negb (is_restart e) && negb (is_store_save e).

(** The advisory a persisted record was made from. *)
Definition advisory_of (r : Stored) : Advisory :=
  mkAdvisory (st_repository r) (st_reason r) (st_link r).

(** What [get_repositories] lists for a category. *)
Definition listed_for (env : Env) (category : string) : list string :=
  default_repos_lists env category ++ default_repos_orgs env category.

(** A method that only makes calls of the kind [allow]. *)
Definition emits {A} (allow : Event -> bool) (m : M A) : Prop :=
  forall w, Forall (fun o => allow (event o) = true) (observed (m w)).

Definition no_timer (e : Event) : bool :=
  match e with TrackTimeInterval _ _ => false | _ => true end.

Definition no_batch (e : Event) : bool :=
  match e with FactoryExecute _ => false | _ => true end.

(** What the startup sweep schedules and marks. *)
Definition schedule (w : World) : list (Sweep * nat) * bool * bool :=
  (recuring_tasks w, status_startup w, status_new w).

(** The names a loop of the shape [if item not in l: l.append(item)]
    appends to [old] while it walks [items], in the order it appends
    them. *)
Fixpoint added_new (old items : list string) : list string :=
  match items with
  | [] => []
  | x :: rest =>
      if Str.mem x old then added_new old rest
      else x :: added_new (old ++ [x]) rest
  end.

(** The dict [get_repositories] builds for the categories [cats]. *)
Definition listing (env : Env) (cats : list string) : dict :=
  fold_left (fun d category => dict_set category (listed_for env category) d)
            cats [].

(** Every list of the dict, one after the other. *)
Definition listed_names (d : dict) : list string := flat_map snd d.

(** The registrations [load_known_repositories] queues for a dict, given
    the blacklist and the registry it tests against. *)
Definition registrations (blacklisted : list string)
           (regs : list Repository) (d : dict) : list Task :=
  flat_map
    (fun entry =>
       map (fun repo => SafeRegister repo (fst entry))
           (filter (fun repo =>
                      negb (Str.mem repo blacklisted)
                      && negb (Registry.is_known regs repo))
                   (snd entry)))
    d.

Definition no_restart (e : Event) : bool := negb (is_restart e).


(* ------------------------------------------------------------------ *)
(** * Properties *)

(** ** Letter case *)

Section LetterCase.

Import Str.

Lemma is_upper_code (c : ascii) :
  is_upper c = true <-> 65 <= nat_of_ascii c <= 90.
Proof.
  unfold is_upper. rewrite andb_true_iff, !Nat.leb_le. tauto.
Qed.

Lemma lower_ascii_code (c : ascii) :
  is_upper c = true -> nat_of_ascii (lower_ascii c) = nat_of_ascii c + 32.
Proof.
  intros Hu. unfold lower_ascii. rewrite Hu.
  apply is_upper_code in Hu.
  apply nat_ascii_embedding. lia.
Qed.

Lemma lower_ascii_not_upper (c : ascii) : is_upper (lower_ascii c) = false.
Proof.
  destruct (is_upper c) eqn:Hu.
  - pose proof (lower_ascii_code c Hu) as Hc.
    apply is_upper_code in Hu.
    apply not_true_is_false. intros Hl. apply is_upper_code in Hl. lia.
  - unfold lower_ascii. rewrite Hu. exact Hu.
Qed.

Lemma lower_ascii_idem (c : ascii) :
  lower_ascii (lower_ascii c) = lower_ascii c.
Proof.
  unfold lower_ascii at 1. now rewrite lower_ascii_not_upper.
Qed.

Lemma nat_of_ascii_inj (c d : ascii) :
  nat_of_ascii c = nat_of_ascii d -> c = d.
Proof.
  intros H. rewrite <- (ascii_nat_embedding c), <- (ascii_nat_embedding d).
  now rewrite H.
Qed.

Lemma same_letter_lower (c d : ascii) :
  same_letter c d <-> lower_ascii c = lower_ascii d.
Proof.
  split.
  - intros [-> | [[Hu ->] | [Hu ->]]].
    + reflexivity.
    + now rewrite lower_ascii_idem.
    + now rewrite lower_ascii_idem.
  - intros H. destruct (is_upper c) eqn:Hc, (is_upper d) eqn:Hd.
    + left. apply nat_of_ascii_inj.
      apply (f_equal nat_of_ascii) in H.
      rewrite !lower_ascii_code in H by assumption. lia.
    + right; left. split; [exact Hc|].
      rewrite H. unfold lower_ascii. now rewrite Hd.
    + right; right. split; [exact Hd|].
      rewrite <- H. unfold lower_ascii. now rewrite Hc.
    + left. unfold lower_ascii in H. now rewrite Hc, Hd in H.
Qed.

Lemma eq_upto_case_lower (s t : string) :
  eq_upto_case s t <-> lower s = lower t.
Proof.
  split.
  - induction 1 as [|c d s t Hcd _ IH]; simpl.
    + reflexivity.
    + apply same_letter_lower in Hcd. now rewrite Hcd, IH.
  - revert t. induction s as [|c s IH]; intros [|d t]; simpl;
      try discriminate.
    + constructor.
    + intros H. injection H as Hc Hs. constructor.
      * now apply same_letter_lower.
      * now apply IH.
Qed.

Lemma mem_In (x : string) (l : list string) : mem x l = true <-> In x l.
Proof.
  unfold mem. rewrite existsb_exists. split.
  - intros [y [Hy He]]. apply String.eqb_eq in He. now subst.
  - intros H. exists x. split; [exact H | apply String.eqb_refl].
Qed.

Lemma mem_false (x : string) (l : list string) :
  mem x l = false <-> ~ In x l.
Proof.
  rewrite <- mem_In. destruct (mem x l); split; intros; congruence.
Qed.

End LetterCase.

(** ** Registry lookups *)

Section Lookups.

Variable regs : list Repository.

Lemma get_by_id_none (id : string) :
  Registry.get_by_id regs id = None <->
  forall r, In r regs -> uid r <> id.
Proof.
  induction regs as [|x l IH]; simpl.
  - split; [intros _ r [] | reflexivity].
  - destruct (String.eqb_spec (uid x) id) as [E|E].
    + split; [discriminate|]. intros H. exfalso. apply (H x); auto.
    + rewrite IH. split.
      * intros H r [<-|Hr]; auto.
      * intros H r Hr. apply H. now right.
Qed.

Lemma get_by_id_some (id : string) (r : Repository) :
  Registry.get_by_id regs id = Some r -> In r regs /\ uid r = id.
Proof.
  induction regs as [|x l IH]; simpl; [discriminate|].
  destruct (String.eqb_spec (uid x) id) as [E|E].
  - intros [= <-]. auto.
  - intros H. destruct (IH H). auto.
Qed.

Lemma get_by_name_none (name : string) :
  Registry.get_by_name regs name = None <->
  forall r, In r regs -> ~ Str.eq_upto_case (full_name r) name.
Proof.
  induction regs as [|x l IH]; simpl.
  - split; [intros _ r [] | reflexivity].
  - destruct (String.eqb_spec (Str.lower (full_name x)) (Str.lower name))
      as [E|E].
    + split; [discriminate|]. intros H. exfalso.
      apply (H x); [now left | now apply eq_upto_case_lower].
    + rewrite IH. split.
      * intros H r [<-|Hr]; [now rewrite eq_upto_case_lower | auto].
      * intros H r Hr. apply H. now right.
Qed.

Lemma get_by_name_some (name : string) (r : Repository) :
  Registry.get_by_name regs name = Some r ->
  In r regs /\ Str.eq_upto_case (full_name r) name.
Proof.
  induction regs as [|x l IH]; simpl; [discriminate|].
  destruct (String.eqb_spec (Str.lower (full_name x)) (Str.lower name))
    as [E|E].
  - intros [= <-]. split; [now left | now apply eq_upto_case_lower].
  - intros H. destruct (IH H). auto.
Qed.

Lemma is_known_iff (name : string) :
  Registry.is_known regs name = true <->
  exists r, In r regs /\ Str.eq_upto_case (full_name r) name.
Proof.
  unfold Registry.is_known. rewrite mem_In, in_map_iff. split.
  - intros [r [E Hr]]. exists r. split; [exact Hr|].
    now apply eq_upto_case_lower.
  - intros [r [Hr E]]. exists r. split; [|exact Hr].
    now apply eq_upto_case_lower.
Qed.

(** [is_known] and [get_by_name] agree on which names are known. *)
Lemma is_known_get_by_name (name : string) :
  Registry.is_known regs name = true <->
  exists r, Registry.get_by_name regs name = Some r.
Proof.
  rewrite is_known_iff. split.
  - intros [r [Hr E]].
    destruct (Registry.get_by_name regs name) as [r'|] eqn:G; [eauto|].
    exfalso. rewrite get_by_name_none in G. exact (G r Hr E).
  - intros [r G]. exists r. now apply get_by_name_some.
Qed.

Lemma is_known_false (name : string) :
  Registry.is_known regs name = false <->
  Registry.get_by_name regs name = None.
Proof.
  split.
  - intros K.
    destruct (Registry.get_by_name regs name) as [r|] eqn:G; [|reflexivity].
    assert (Registry.is_known regs name = true) as K'
        by (apply is_known_get_by_name; eauto).
    congruence.
  - intros G.
    destruct (Registry.is_known regs name) eqn:K; [|reflexivity].
    apply is_known_get_by_name in K. destruct K as [r Hr]. congruence.
Qed.

End Lookups.

(** C9.  The lookups answer [None] exactly when no entry matches, whatever
    the registry and the query; [get_by_name] and [is_known] match a full
    name against an entry whenever the two are equal up to letter case. *)
Theorem lookups_absent_and_case_insensitive
        (regs : list Repository) (id name : string) :
  (Registry.get_by_id regs id = None <->
     forall r, In r regs -> uid r <> id) /\
  (Registry.get_by_name regs name = None <->
     forall r, In r regs -> ~ Str.eq_upto_case (full_name r) name) /\
  (Registry.is_known regs name = true <->
     exists r, In r regs /\ Str.eq_upto_case (full_name r) name) /\
  (forall r, In r regs -> Str.eq_upto_case (full_name r) name ->
     exists r', Registry.get_by_name regs name = Some r' /\
                In r' regs /\ Str.eq_upto_case (full_name r') name).
Proof.
  split; [apply get_by_id_none|].
  split; [apply get_by_name_none|].
  split; [apply is_known_iff|].
  intros r Hr E.
  destruct (proj1 (is_known_get_by_name regs name)) as [r' G].
  - apply is_known_iff. eauto.
  - exists r'. split; [exact G|]. now apply get_by_name_some.
Qed.

(** ** Running methods *)

Lemma run_bind {A B} (m : M A) (k : A -> M B) (w : World) :
  bind m k w =
  match m w with
  | (Ok a, w1, e1) =>
      (outcome (k a w1), world_of (k a w1), e1 ++ observed (k a w1))
  | (Raise e, w1, e1) => (Raise e, w1, e1)
  end.
Proof.
  unfold bind, outcome, world_of, observed.
  destruct (m w) as [[[a|e] w1] e1]; [|reflexivity].
  now destruct (k a w1) as [[r w2] e2].
Qed.

Lemma count_app (p : Event -> bool) (l1 l2 : list Event) :
  count p (l1 ++ l2) = count p l1 + count p l2.
Proof. unfold count. now rewrite filter_app, length_app. Qed.

Lemma count_zero (p : Event -> bool) (l : list Event) :
  Forall (fun e => p e = false) l -> count p l = 0.
Proof.
  unfold count. induction 1 as [|e l He _ IH]; simpl; [reflexivity|].
  now rewrite He.
Qed.

Lemma existsb_false_forall (p : Event -> bool) (l : list Event) :
  Forall (fun e => p e = false) l -> existsb p l = false.
Proof.
  induction 1 as [|e l He _ IH]; simpl; [reflexivity|]. now rewrite He.
Qed.

(** ** Methods that leave the flag alone; methods that never raise *)

Section Steady.

Variable allow : Event -> bool.

Lemma steady_ret {A} (a : A) : steady allow (ret a).
Proof. intros w. split; [reflexivity | constructor]. Qed.

Lemma steady_raise {A} (e : exn) : steady allow (@raise A e).
Proof. intros w. split; [reflexivity | constructor]. Qed.

Lemma steady_get : steady allow get.
Proof. intros w. split; [reflexivity | constructor]. Qed.

Lemma steady_emit (e : Event) : allow e = true -> steady allow (emit e).
Proof.
  intros He w. split; [reflexivity|].
  constructor; [split; [reflexivity | exact He] | constructor].
Qed.

Lemma steady_modify (f : World -> World) :
  (forall w, background_task (f w) = background_task w) ->
  steady allow (modify f).
Proof. intros Hf w. split; [apply Hf | constructor]. Qed.

Lemma steady_bind {A B} (m : M A) (k : A -> M B) :
  steady allow m -> (forall a, steady allow (k a)) ->
  steady allow (bind m k).
Proof.
  intros Hm Hk w. specialize (Hm w). rewrite run_bind.
  destruct (m w) as [[[a|e] w1] e1]; unfold world_of, observed in *;
    simpl in *; [|exact Hm].
  destruct Hm as [Hw He]. destruct (Hk a w1) as [Hw' He'].
  unfold world_of, observed in *. simpl. rewrite Hw in Hw', He'.
  split; [exact Hw'|]. apply Forall_app. now split.
Qed.

Lemma steady_try {A} (m h : M A) (handles : exn -> bool) :
  steady allow m -> steady allow h -> steady allow (try_except m handles h).
Proof.
  intros Hm Hh w. specialize (Hm w). unfold try_except.
  destruct (m w) as [[[a|e] w1] e1]; unfold world_of, observed in *;
    simpl in *; [exact Hm|].
  destruct (handles e); [|exact Hm].
  destruct Hm as [Hw He]. specialize (Hh w1).
  destruct (h w1) as [[r w2] e2]. unfold world_of, observed in *.
  simpl in *. destruct Hh as [Hw' He']. rewrite Hw in Hw', He'.
  split; [exact Hw'|]. apply Forall_app. now split.
Qed.

Lemma steady_for_fold {A S} (l : list A) (s : S) (body : A -> S -> M S) :
  (forall x s', steady allow (body x s')) ->
  steady allow (for_fold l s body).
Proof.
  intros Hb. revert s. induction l as [|x l IH]; intros s; simpl.
  - apply steady_ret.
  - apply steady_bind; [apply Hb | intros s'; apply IH].
Qed.

Lemma steady_for_each {A} (l : list A) (body : A -> M unit) :
  (forall x, steady allow (body x)) -> steady allow (for_each l body).
Proof. intros Hb. apply steady_for_fold. intros x _. apply Hb. Qed.

Lemma steady_when (b : bool) (m : M unit) :
  steady allow m -> steady allow (when b m).
Proof. intros Hm. destruct b; [exact Hm | apply steady_ret]. Qed.

End Steady.

Section Total.

Lemma total_ret {A} (a : A) : total (ret a).
Proof. intros w. now exists a. Qed.

Lemma total_get : total get.
Proof. intros w. now exists w. Qed.

Lemma total_emit (e : Event) : total (emit e).
Proof. intros w. now exists tt. Qed.

Lemma total_modify (f : World -> World) : total (modify f).
Proof. intros w. now exists tt. Qed.

Lemma total_bind {A B} (m : M A) (k : A -> M B) :
  total m -> (forall a, total (k a)) -> total (bind m k).
Proof.
  intros Hm Hk w. destruct (Hm w) as [a Ha]. rewrite run_bind.
  destruct (m w) as [[r w1] e1]. unfold outcome in Ha. simpl in Ha.
  subst r. destruct (Hk a w1) as [b Hb]. now exists b.
Qed.

Lemma total_for_fold {A S} (l : list A) (s : S) (body : A -> S -> M S) :
  (forall x s', total (body x s')) -> total (for_fold l s body).
Proof.
  intros Hb. revert s. induction l as [|x l IH]; intros s; simpl.
  - apply total_ret.
  - apply total_bind; [apply Hb | intros s'; apply IH].
Qed.

Lemma total_for_each {A} (l : list A) (body : A -> M unit) :
  (forall x, total (body x)) -> total (for_each l body).
Proof. intros Hb. apply total_for_fold. intros x _. apply Hb. Qed.

Lemma total_when (b : bool) (m : M unit) : total m -> total (when b m).
Proof. intros Hm. destruct b; [exact Hm | apply total_ret]. Qed.

End Total.

(** C10.  [register_repository] hands the literal [check=True] to the
    registration helper: the call it makes and the world it leaves are the
    same for every value of the caller's [check]. *)
Theorem register_repository_ignores_check
        (env : Env) (name cat : string) (check : bool) (w : World) :
  Hacs.register_repository env name cat check w =
    Hacs.register_repository env name cat (negb check) w /\
  events_of (Hacs.register_repository env name cat check w) =
    [RegisterRepository name cat true] /\
  repositories (world_of (Hacs.register_repository env name cat check w)) =
    helper_register env name cat true (repositories w).
Proof. repeat split. Qed.

(** ** The startup alert *)

Lemma alert_scan (l : list Stored) (alert : bool) (w : World) :
  for_fold l alert
    (fun repo alert => if negb (st_acknowledged repo) then ret true
                       else ret alert) w =
  (Ok (alert || existsb (fun r => negb (st_acknowledged r)) l), w, []).
Proof.
  revert alert. induction l as [|r l IH]; intros alert; simpl.
  - now rewrite orb_false_r.
  - rewrite run_bind. destruct (st_acknowledged r); simpl.
    + unfold outcome, world_of, observed. now rewrite IH.
    + unfold outcome, world_of, observed. rewrite IH. simpl.
      now rewrite orb_true_r.
Qed.

Lemma startup_check_run (w : World) :
  Hacs.handle_critical_repositories_startup w =
  (Ok tt, w,
   if existsb (fun r => negb (st_acknowledged r))
              (match store_critical w with Some l => l | None => [] end)
   then [mkObs (background_task w)
               (Log Critical (Text "URGENT!: Check the HACS panel!"));
         mkObs (background_task w)
               (PersistentNotification "URGENT!" "**Check the HACS panel!**")]
   else []).
Proof.
  unfold Hacs.handle_critical_repositories_startup.
  rewrite run_bind. simpl. unfold outcome, world_of, observed. simpl.
  destruct (store_critical w) as [[|r l]|]; try reflexivity.
  rewrite run_bind, alert_scan. cbn [orb].
  destruct (existsb (fun r0 => negb (st_acknowledged r0)) (r :: l));
    reflexivity.
Qed.

(** C8.  The startup alert check raises the urgent notification exactly
    when the persisted store holds an unacknowledged advisory, and it
    leaves the whole world (registry, blacklist, persisted store, flags)
    as it found it. *)
Theorem startup_alert_iff_unacknowledged (w : World) :
  let run := Hacs.handle_critical_repositories_startup w in
  outcome run = Ok tt /\
  world_of run = w /\
  (In (PersistentNotification "URGENT!" "**Check the HACS panel!**")
      (events_of run) <->
   exists l r, store_critical w = Some l /\ l <> [] /\
               In r l /\ st_acknowledged r = false).
Proof.
  intros run. subst run. rewrite startup_check_run.
  unfold outcome, world_of, events_of. simpl.
  split; [reflexivity|]. split; [reflexivity|].
  destruct (existsb (fun r => negb (st_acknowledged r))
                    (match store_critical w with Some l => l | None => [] end))
    eqn:E; simpl.
  - split; [intros _ | intros _; right; now left].
    apply existsb_exists in E. destruct E as [r [Hr Ha]].
    destruct (store_critical w) as [l|]; [|destruct Hr].
    exists l, r. repeat split; try assumption.
    + intros ->. destruct Hr.
    + now destruct (st_acknowledged r).
  - split; [intros [] |].
    intros [l [r [Hs [_ [Hr Ha]]]]]. rewrite Hs in E.
    assert (existsb (fun r => negb (st_acknowledged r)) l = true) as E'.
    { apply existsb_exists. exists r. split; [exact Hr|]. now rewrite Ha. }
    congruence.
Qed.

(** ** The critical guard *)

Section Guard.

Variable env : Env.
Variable instored : list string.

Lemma forced_target_iff (regs : list Repository) (a : Advisory)
      (r : Repository) :
  forced_target instored regs a = Some r <->
  Spec.newly_critical instored regs a r.
Proof.
  unfold forced_target, Spec.newly_critical.
  destruct (Str.mem (adv_repository a) instored) eqn:Hm; simpl.
  - apply mem_In in Hm. split; [discriminate | tauto].
  - apply mem_false in Hm.
    destruct (Registry.get_by_name regs (adv_repository a)) as [r'|] eqn:G.
    + assert (Registry.is_known regs (adv_repository a) = true) as K
          by (apply is_known_get_by_name; eauto).
      destruct (installed r') eqn:I.
      * split; [intros [= <-]; auto | intros [_ [_ [[= <-] _]]]; reflexivity].
      * split; [discriminate | intros [_ [_ [[= <-] I']]]; congruence].
    + split; [discriminate | intros [_ [_ [? _]]]; discriminate].
Qed.

Lemma forced_target_none (regs : list Repository) (a : Advisory) :
  forced_target instored regs a = None <->
  forall r, ~ Spec.newly_critical instored regs a r.
Proof.
  split.
  - intros H r Hr. apply forced_target_iff in Hr. congruence.
  - intros H. destruct (forced_target instored regs a) as [r|] eqn:E;
      [|reflexivity].
    apply forced_target_iff in E. now apply H in E.
Qed.

(** One turn of the loop, in closed form. *)
Lemma critical_step_run (a : Advisory) (locals : bool * list Stored)
      (w : World) :
  let name := adv_repository a in
  let w1 := set_blacklist (blacklist w ++ [name]) w in
  Hacs.critical_step env instored a locals w =
  match forced_target instored (repositories w) a with
  | Some r =>
      (Ok (true, snd locals ++ [Spec.record a false]),
       set_repositories
         (repo_uninstall env r (repo_remove env r (repositories w))) w1,
       stamp w [RemovedType name "critical";
                Log Critical (Hacs.removing_message name);
                RepoRemove r; RepoUninstall r;
                RemovedUpdate name (Spec.record a false)])
  | None =>
      (Ok (fst locals, snd locals ++ [Spec.record a true]), w1,
       stamp w [RemovedType name "critical";
                RemovedUpdate name (Spec.record a true)])
  end.
Proof.
  unfold Hacs.critical_step, forced_target.
  cbv [bind modify emit get]. simpl.
  destruct (Str.mem (adv_repository a) instored); simpl; [reflexivity|].
  destruct (Registry.get_by_name (repositories w) (adv_repository a))
    as [r|]; [|reflexivity].
  destruct (installed r); reflexivity.
Qed.

(** The loop over the feed: it realises [Spec.GuardRun]. *)
Lemma guard_loop (critical : list Advisory) :
  forall (locals : bool * list Stored) (w : World),
  exists evs recs,
    let run := for_fold critical locals (Hacs.critical_step env instored) w in
    outcome run = Ok (fst locals || existsb is_uninstall evs,
                      snd locals ++ recs) /\
    Spec.GuardRun env instored (repositories w) critical evs recs
                  (repositories (world_of run)) /\
    filter is_forced (events_of run) = evs /\
    map st_repository recs = map adv_repository critical /\
    world_of run =
      set_repositories (repositories (world_of run))
        (set_blacklist (blacklist w ++ map adv_repository critical) w) /\
    count is_restart (events_of run) = 0.
Proof.
  induction critical as [|a l IH]; intros locals w.
  - exists [], []. simpl. unfold outcome, world_of, events_of. simpl.
    rewrite !app_nil_r, orb_false_r.
    repeat split; try constructor; now destruct locals, w.
  - simpl for_fold. rewrite run_bind, critical_step_run.
    destruct (forced_target instored (repositories w) a) as [r|] eqn:T;
      match goal with
      | |- context [for_fold l ?s _ ?w'] =>
          destruct (IH s w') as [evs [recs [Ho [Hg [Hf [Hn [Hw Hc]]]]]]];
          remember (for_fold l s (Hacs.critical_step env instored) w')
            as run' eqn:Hrun'
      end; clear Hrun'; cbv zeta in *;
      unfold outcome, world_of, events_of, observed in *;
      cbn [fst snd] in *.
    + exists (RepoRemove r :: RepoUninstall r :: evs),
             (Spec.record a false :: recs).
      rewrite Ho. split; [|split; [|split; [|split; [|split]]]].
      * cbn. rewrite orb_true_r. now rewrite <- app_assoc.
      * apply Spec.guard_forced; [now apply forced_target_iff|exact Hg].
      * rewrite map_app, filter_app, Hf. reflexivity.
      * cbn. now rewrite Hn.
      * rewrite Hw at 1. cbn. now rewrite <- app_assoc.
      * rewrite map_app, count_app, Hc. reflexivity.
    + exists evs, (Spec.record a true :: recs).
      rewrite Ho. split; [|split; [|split; [|split; [|split]]]].
      * cbn. now rewrite <- app_assoc.
      * apply Spec.guard_acknowledged;
          [now apply forced_target_none | exact Hg].
      * rewrite map_app, filter_app, Hf. reflexivity.
      * cbn. now rewrite Hn.
      * rewrite Hw at 1. cbn. now rewrite <- app_assoc.
      * rewrite map_app, count_app, Hc. reflexivity.
Qed.

End Guard.

Section GuardRuns.

Variable env : Env.

(** The fetch: a GitHub exception is swallowed and leaves the empty
    list, any other exception leaves the method. *)
Lemma fetch_run (w : World) :
  try_except (Hacs.get_critical env) is_AIOGitHubException (ret []) w =
  match critical_contents env with
  | RemoteRaises e =>
      if is_AIOGitHubException e then (Ok [], w, []) else (Raise e, w, [])
  | RemoteContent None => (Raise JSONDecodeError, w, [])
  | RemoteContent (Some critical) => (Ok critical, w, [])
  end.
Proof.
  unfold try_except, Hacs.get_critical.
  destruct (critical_contents env) as [e|[critical|]]; reflexivity.
Qed.

Lemma guard_run (w : World) :
  Hacs.handle_critical_repositories env w =
  match critical_contents env with
  | RemoteRaises e =>
      if is_AIOGitHubException e then early_return w else (Raise e, w, [])
  | RemoteContent None => (Raise JSONDecodeError, w, [])
  | RemoteContent (Some []) => early_return w
  | RemoteContent (Some critical) =>
      let loop := for_fold critical (false, [])
                    (Hacs.critical_step env (persisted_names w)) w in
      match outcome loop with
      | Ok locals =>
          (Ok tt, set_store_critical (Some (snd locals)) (world_of loop),
           observed loop ++
           stamp (world_of loop)
             (StoreSave "critical" (snd locals) ::
              if fst locals
              then [Log Critical (Text "Resarting Home Assistant");
                    AsyncStop 100]
              else []))
      | Raise e => (Raise e, world_of loop, observed loop)
      end
  end.
Proof.
  unfold Hacs.handle_critical_repositories.
  rewrite run_bind, fetch_run.
  destruct (critical_contents env) as [e|[[|a l]|]]; try reflexivity.
  - destruct (is_AIOGitHubException e); reflexivity.
  - cbv zeta. rewrite run_bind. cbn [get outcome world_of observed fst snd].
    rewrite run_bind. fold (persisted_names w).
    remember (for_fold (a :: l) (false, [])
                (Hacs.critical_step env (persisted_names w)) w) as loop.
    destruct loop as [[[locals|e] w1] es]; [|reflexivity].
    cbn [outcome world_of observed fst snd app].
    destruct locals as [[|] recs]; reflexivity.
Qed.

End GuardRuns.

Lemma existsb_filter_forced (l : list Event) :
  existsb is_uninstall (filter is_forced l) = existsb is_uninstall l.
Proof.
  induction l as [|e l IH]; simpl; [reflexivity|].
  unfold is_forced at 1. destruct e; simpl; auto.
Qed.

Section GuardSpec.

Variable env : Env.
Variable critical : list Advisory.
Hypothesis fetched : critical_contents env = RemoteContent (Some critical).
Hypothesis some : critical <> [].

Lemma guard_run_spec (w : World) :
  exists recs,
    let run := Hacs.handle_critical_repositories env w in
    outcome run = Ok tt /\
    Spec.GuardRun env (persisted_names w) (repositories w) critical
                  (filter is_forced (events_of run)) recs
                  (repositories (world_of run)) /\
    map st_repository recs = map adv_repository critical /\
    world_of run =
      set_store_critical (Some recs)
        (set_repositories (repositories (world_of run))
           (set_blacklist (blacklist w ++ map adv_repository critical) w)) /\
    In (StoreSave "critical" recs) (events_of run) /\
    count is_restart (events_of run) =
      (if existsb is_uninstall (events_of run) then 1 else 0).
Proof.
  destruct (guard_loop env (persisted_names w) critical (false, []) w)
    as [evs [recs [Ho [Hg [Hf [Hn [Hw Hc]]]]]]].
  exists recs. cbv zeta in *. rewrite guard_run, fetched.
  destruct critical as [|a l] eqn:Ec; [now elim some|]. rewrite <- Ec in *.
  cbv zeta. rewrite Ho.
  remember (for_fold critical (false, [])
              (Hacs.critical_step env (persisted_names w)) w) as loop.
  clear Heqloop.
  unfold outcome, world_of, events_of, observed, stamp in *.
  cbn [fst snd orb app] in *.
  rewrite map_app, filter_app, Hf.
  assert (forall b,
    filter is_forced
      (map event
         (map (mkObs b)
            (StoreSave "critical" recs ::
             (if existsb is_uninstall evs
              then [Log Critical (Text "Resarting Home Assistant");
                    AsyncStop 100]
              else [])))) = []) as Hnone
      by (intros b; destruct (existsb is_uninstall evs); reflexivity).
  rewrite Hnone, app_nil_r.
  split; [reflexivity|]. split; [exact Hg|]. split; [exact Hn|].
  split; [rewrite Hw at 1; reflexivity|].
  split.
  - apply in_or_app. right. now left.
  - rewrite count_app, Hc, existsb_app.
    rewrite <- (existsb_filter_forced (map event (snd loop))), Hf.
    destruct (existsb is_uninstall evs); reflexivity.
Qed.

End GuardSpec.

(** C1.  Every run of the guard.  Over a fetched, non-empty feed the
    forced removals it makes (each a [remove] followed by an [uninstall] of
    the matching entry) are exactly those of the advisories whose name was
    absent from the previously persisted set while the repository was known
    and installed when the advisory was reached; the record persisted for
    exactly those advisories has [acknowledged=false] and for all others
    [acknowledged=true].  Without advisories (the fetch raised, or the feed
    is empty) nothing is removed and the world is left as it was.  In every
    run the restart is requested once if a forced uninstall occurred and
    not at all otherwise. *)
Theorem guard_forces_exactly_the_newly_critical (env : Env) (w : World) :
  let run := Hacs.handle_critical_repositories env w in
  count is_restart (events_of run) =
    (if existsb is_uninstall (events_of run) then 1 else 0) /\
  match critical_contents env with
  | RemoteContent (Some (a :: rest)) =>
      exists recs,
        outcome run = Ok tt /\
        Spec.GuardRun env (persisted_names w) (repositories w) (a :: rest)
                      (filter is_forced (events_of run)) recs
                      (repositories (world_of run)) /\
        store_critical (world_of run) = Some recs /\
        In (StoreSave "critical" recs) (events_of run)
  | _ => filter is_forced (events_of run) = [] /\ world_of run = w
  end.
Proof.
  intros run. subst run.
  destruct (critical_contents env) as [e|[[|a l]|]] eqn:E.
  - rewrite guard_run, E. destruct (is_AIOGitHubException e); now repeat split.
  - rewrite guard_run, E. now repeat split.
  - assert (a :: l <> []) as Hne by discriminate.
    destruct (@guard_run_spec env (a :: l) E Hne w)
      as [recs [Ho [Hg [_ [Hw [Hi Hc]]]]]].
    cbv zeta in *. split; [exact Hc|]. exists recs.
    repeat split; try assumption. now rewrite Hw.
  - rewrite guard_run, E. now repeat split.
Qed.

Lemma guard_run_all_stored (env : Env) (instored : list string)
      (regs regs' : list Repository) (critical : list Advisory)
      (evs : list Event) (recs : list Stored) :
  (forall a, In a critical -> In (adv_repository a) instored) ->
  Spec.GuardRun env instored regs critical evs recs regs' ->
  evs = [] /\ regs' = regs /\
  Forall (fun rec => st_acknowledged rec = true) recs.
Proof.
  intros Hall Hg. induction Hg as [regs|regs a rest r evs recs regs' Hn _ _
                                   |regs a rest evs recs regs' _ _ IH].
  - repeat split. constructor.
  - exfalso. destruct Hn as [Hn _]. apply Hn, Hall. now left.
  - destruct IH as [-> [-> Hr]]; [intros b Hb; apply Hall; now right|].
    repeat split. now constructor.
Qed.

(** The relation pins the run down: a feed, a persisted set and a registry
    admit one sequence of forced removals, one list of records and one
    final registry. *)
Lemma guard_run_deterministic (env : Env) (instored : list string)
      (regs : list Repository) (critical : list Advisory)
      (evs1 evs2 : list Event) (recs1 recs2 : list Stored)
      (regs1 regs2 : list Repository) :
  Spec.GuardRun env instored regs critical evs1 recs1 regs1 ->
  Spec.GuardRun env instored regs critical evs2 recs2 regs2 ->
  evs1 = evs2 /\ recs1 = recs2 /\ regs1 = regs2.
Proof.
  intros H1. revert evs2 recs2 regs2.
  induction H1 as [regs|regs a rest r evs recs regs' Hn _ IH
                   |regs a rest evs recs regs' Hn _ IH];
    intros evs2 recs2 regs2 H2; inversion H2; subst.
  - auto.
  - match goal with
    | H : Spec.newly_critical _ _ _ ?r' |- _ =>
        assert (r' = r) as ->
          by (destruct Hn as [_ [_ [G _]]], H as [_ [_ [G' _]]]; congruence)
    end.
    match goal with
    | H : Spec.GuardRun _ _ _ rest _ _ _ |- _ =>
        destruct (IH _ _ _ H) as [-> [-> ->]]
    end. auto.
  - exfalso. match goal with H : forall r, ~ _ |- _ => exact (H r Hn) end.
  - exfalso. match goal with
             | H : Spec.newly_critical _ _ _ ?r' |- _ => exact (Hn r' H)
             end.
  - match goal with
    | H : Spec.GuardRun _ _ _ rest _ _ _ |- _ =>
        destruct (IH _ _ _ H) as [-> [-> ->]]
    end. auto.
Qed.

(** C3.  A second guard pass over an unchanged feed, started from any
    world whose persisted advisories are those the first pass left, makes
    no forced removal and requests no restart, whatever the registry and
    the feed. *)
Theorem guard_second_run_is_silent (env1 env2 : Env) (w w' : World) :
  critical_contents env2 = critical_contents env1 ->
  store_critical w' =
    store_critical (world_of (Hacs.handle_critical_repositories env1 w)) ->
  filter is_forced (events_of (Hacs.handle_critical_repositories env2 w')) = []
  /\ count is_restart
       (events_of (Hacs.handle_critical_repositories env2 w')) = 0.
Proof.
  intros Hfeed Hstore.
  destruct (critical_contents env1) as [e|[[|a l]|]] eqn:E1.
  - rewrite guard_run, Hfeed. destruct (is_AIOGitHubException e); now split.
  - rewrite guard_run, Hfeed. now split.
  - assert (a :: l <> []) as Hne by discriminate.
    destruct (@guard_run_spec env1 (a :: l) E1 Hne w)
      as [recs [_ [_ [Hn [Hw _]]]]].
    cbv zeta in Hn, Hw. rewrite Hw in Hstore. simpl in Hstore.
    destruct (@guard_run_spec env2 (a :: l) Hfeed Hne w')
      as [recs' [_ [Hg [_ [_ [_ Hc]]]]]].
    cbv zeta in Hg, Hc.
    assert (persisted_names w' = map adv_repository (a :: l)) as Hp
        by (unfold persisted_names; now rewrite Hstore, Hn).
    rewrite Hp in Hg.
    apply guard_run_all_stored in Hg;
      [|intros b Hb; now apply in_map].
    destruct Hg as [Hnone _]. split; [exact Hnone|].
    rewrite Hc, <- existsb_filter_forced, Hnone. reflexivity.
  - rewrite guard_run, Hfeed. now split.
Qed.

Lemma guard_second_run_is_silent_witness :
  filter is_forced
    (events_of
       (Hacs.handle_critical_repositories Sample.env_malware
          (world_of (Hacs.handle_critical_repositories Sample.env_malware
                       (Sample.world_with [Sample.theme_x] []))))) = []
  /\ count is_restart
       (events_of
          (Hacs.handle_critical_repositories Sample.env_malware
             (world_of (Hacs.handle_critical_repositories Sample.env_malware
                          (Sample.world_with [Sample.theme_x] []))))) = 0.
Proof.
  apply (@guard_second_run_is_silent Sample.env_malware Sample.env_malware
           (Sample.world_with [Sample.theme_x] [])); reflexivity.
Defined.

(** The sample run of the guard: the installed theme is removed and
    uninstalled once, its record is unacknowledged, one restart. *)
Example guard_sample_run :
  let run := Hacs.handle_critical_repositories Sample.env_malware
               (Sample.world_with [Sample.theme_x] []) in
  filter is_forced (events_of run) =
    [RepoRemove Sample.theme_x; RepoUninstall Sample.theme_x] /\
  store_critical (world_of run) =
    Some [Spec.record Sample.malware false] /\
  count is_restart (events_of run) = 1 /\
  repositories (world_of run) = [].
Proof. repeat split. Qed.

(** ** The blacklist enforcer *)

Section Enforcer.

Variable env : Env.

(** One turn of the loop, in closed form: [get_by_name] never answers
    [None] for a name [is_known] accepts, so the turn never raises. *)
Lemma blacklist_step_run (name : string) (need_to_save : bool) (w : World) :
  Hacs.blacklist_step env name need_to_save w =
  match blacklisted_entry (repositories w) name with
  | Some r =>
      if status_installed r
      then (Ok need_to_save, w,
            stamp w [Log Warning (Hacs.blacklisted_message (full_name r))])
      else (Ok true,
            set_repositories (repo_remove env r (repositories w)) w,
            stamp w [RepoRemove r])
  | None => (Ok need_to_save, w, [])
  end.
Proof.
  unfold Hacs.blacklist_step, blacklisted_entry.
  cbv [bind get]. simpl.
  destruct (Registry.is_known (repositories w) name) eqn:K; [|reflexivity].
  apply is_known_get_by_name in K. destruct K as [r ->].
  destruct (status_installed r); reflexivity.
Qed.

Lemma blacklisted_entry_some (regs : list Repository) (name : string)
      (r : Repository) :
  blacklisted_entry regs name = Some r <->
  Registry.is_known regs name = true /\
  Registry.get_by_name regs name = Some r.
Proof.
  unfold blacklisted_entry.
  destruct (Registry.is_known regs name); split;
    try discriminate; try tauto.
  intros [? _]; discriminate.
Qed.

Lemma blacklisted_entry_none (regs : list Repository) (name : string) :
  blacklisted_entry regs name = None <->
  Registry.is_known regs name = false.
Proof.
  unfold blacklisted_entry.
  destruct (Registry.is_known regs name) eqn:K.
  - apply is_known_get_by_name in K. destruct K as [r ->].
    split; discriminate.
  - tauto.
Qed.

Lemma enforcer_loop (names : list string) :
  forall (need_to_save : bool) (w : World),
  exists evs,
    let run := for_fold names need_to_save (Hacs.blacklist_step env) w in
    outcome run = Ok (need_to_save || existsb is_remove evs) /\
    Spec.EnforcerRun env (repositories w) names evs
                     (repositories (world_of run)) /\
    events_of run = evs /\
    observed run = stamp w evs /\
    world_of run = set_repositories (repositories (world_of run)) w.
Proof.
  induction names as [|name l IH]; intros b w.
  - exists []. simpl. unfold outcome, world_of, events_of, observed. simpl.
    rewrite orb_false_r. repeat split; try constructor. now destruct w.
  - simpl for_fold. rewrite run_bind, blacklist_step_run.
    destruct (blacklisted_entry (repositories w) name) as [r|] eqn:B;
      [apply blacklisted_entry_some in B; destruct B as [K G];
       destruct (status_installed r) eqn:I
      |apply blacklisted_entry_none in B];
      match goal with
      | |- context [for_fold l ?s _ ?w'] =>
          destruct (IH s w') as [evs [Ho [Hr [He [Hs Hw]]]]];
          remember (for_fold l s (Hacs.blacklist_step env) w')
            as run' eqn:Hrun'
      end; clear Hrun'; cbv zeta in *;
      unfold outcome, world_of, events_of, observed, stamp in *;
      cbn [fst snd] in *.
    + exists (Log Warning (Hacs.blacklisted_message (full_name r)) :: evs).
      rewrite Ho, Hs. repeat split.
      * eapply Spec.enforce_warn; eauto.
      * cbn. now rewrite map_map, map_id.
      * exact Hw.
    + exists (RepoRemove r :: evs).
      rewrite Ho, Hs. repeat split.
      * cbn. now rewrite orb_true_r.
      * eapply Spec.enforce_unregister; eauto.
      * cbn. now rewrite map_map, map_id.
      * rewrite Hw at 1. reflexivity.
    + exists evs. rewrite Ho, Hs. repeat split.
      * now apply Spec.enforce_unknown.
      * cbn. now rewrite map_map, map_id.
      * exact Hw.
Qed.

Lemma enforcer_run_events (regs regs' : list Repository)
      (names : list string) (evs : list Event) :
  Spec.EnforcerRun env regs names evs regs' ->
  Forall (fun e => is_write e = false /\ is_status e = false /\
                   is_uninstall e = false /\ is_restart e = false) evs.
Proof.
  induction 1; try assumption; constructor; auto.
Qed.

End Enforcer.

(** The enforcer only ever unregisters entries that are not installed, and
    only ever warns about entries that are. *)
Lemma enforcer_run_removes_uninstalled (env : Env)
      (regs regs' : list Repository) (names : list string)
      (evs : list Event) :
  Spec.EnforcerRun env regs names evs regs' ->
  forall r, In (RepoRemove r) evs -> status_installed r = false.
Proof.
  induction 1 as [| | regs name rest r0 evs regs' _ _ _ _ IH
                  | regs name rest r0 evs regs' _ _ Hi _ IH];
    intros r Hr; auto.
  - destruct Hr.
  - destruct Hr as [Hr|Hr]; [discriminate | auto].
  - destruct Hr as [[= <-]|Hr]; auto.
Qed.

Lemma enforcer_run_spec (env : Env) (w : World) :
  let run := Hacs.clear_out_blacklisted_repositories env w in
  exists evs,
    outcome run = Ok tt /\
    Spec.EnforcerRun env (repositories w) (blacklist w) evs
                     (repositories (world_of run)) /\
    events_of run = evs ++ (if existsb is_remove evs then [DataWrite] else [])
    /\ count is_write (events_of run) =
         (if existsb is_remove (events_of run) then 1 else 0) /\
    world_of run = set_repositories (repositories (world_of run)) w.
Proof.
  intros run. subst run. unfold Hacs.clear_out_blacklisted_repositories.
  rewrite run_bind. cbn [get outcome world_of observed fst snd app].
  rewrite run_bind.
  destruct (enforcer_loop env (blacklist w) false w)
    as [evs [Ho [Hr [He [Hs Hw]]]]].
  cbv zeta in *.
  remember (for_fold (blacklist w) false (Hacs.blacklist_step env) w) as loop.
  clear Heqloop. destruct loop as [[r w1] es].
  unfold outcome, world_of, events_of, observed in *. cbn [fst snd] in *.
  subst r. cbn [orb]. exists evs.
  pose proof (enforcer_run_events Hr) as Hq.
  assert (count is_write evs = 0) as Hz.
  { apply count_zero. eapply Forall_impl; [|exact Hq]. simpl. tauto. }
  destruct (existsb is_remove evs) eqn:X; cbn [when emit ret fst snd].
  - rewrite map_app, He. cbn [map event].
    repeat split; try assumption.
    rewrite count_app, Hz, existsb_app, X. reflexivity.
  - rewrite app_nil_r, He, app_nil_r. repeat split; try assumption.
    now rewrite Hz, X.
Qed.


(** C6.  One enforcer pass: walking the blacklist name by name, a name
    matching a known repository that is installed gets a warning and is not
    unregistered, one matching a known repository that is not installed is
    unregistered, any other name is skipped; the registry is written once,
    after the walk, when at least one repository was unregistered, and not
    at all otherwise.  The pass never raises and touches nothing but the
    registry. *)
Theorem enforcer_warns_installed_unregisters_others (env : Env) (w : World) :
  let run := Hacs.clear_out_blacklisted_repositories env w in
  exists evs,
    outcome run = Ok tt /\
    Spec.EnforcerRun env (repositories w) (blacklist w) evs
                     (repositories (world_of run)) /\
    events_of run = evs ++ (if existsb is_remove evs then [DataWrite] else [])
    /\ (forall r, In (RepoRemove r) (events_of run) ->
                  status_installed r = false) /\
    count is_write (events_of run) =
      (if existsb is_remove (events_of run) then 1 else 0) /\
    world_of run = set_repositories (repositories (world_of run)) w.
Proof.
  destruct (enforcer_run_spec env w) as [evs [Ho [Hr [He [Hc Hw]]]]].
  cbv zeta in *. exists evs. repeat split; try assumption.
  intros r Hin. rewrite He in Hin. apply in_app_or in Hin.
  destruct Hin as [Hin|Hin].
  - exact (enforcer_run_removes_uninstalled Hr r Hin).
  - destruct (existsb is_remove evs); [destruct Hin as [Hin|[]]|destruct Hin].
    discriminate.
Qed.

(** A blacklist naming an installed theme and a plugin that is not
    installed: one warning, one unregistration, one write. *)
Example enforcer_sample_run :
  events_of (Hacs.clear_out_blacklisted_repositories Sample.env_quiet
               (Sample.world_with [Sample.theme_x; Sample.plugin_y]
                  ["Alice/Theme-X"; "bob/plugin-y"; "carol/unknown"])) =
  [Log Warning (Hacs.blacklisted_message "alice/theme-x");
   RepoRemove Sample.plugin_y; DataWrite].
Proof. reflexivity. Qed.

(** ** Relations every step of a method respects *)

Section Respects.

Variable R : World -> World -> Prop.
Hypothesis R_refl : forall w, R w w.
Hypothesis R_trans : forall w1 w2 w3, R w1 w2 -> R w2 w3 -> R w1 w3.

Lemma respects_ret {A} (a : A) : respects R (ret a).
Proof. intros w. apply R_refl. Qed.

Lemma respects_raise {A} (e : exn) : respects R (@raise A e).
Proof. intros w. apply R_refl. Qed.

Lemma respects_get : respects R get.
Proof. intros w. apply R_refl. Qed.

Lemma respects_emit (e : Event) : respects R (emit e).
Proof. intros w. apply R_refl. Qed.

Lemma respects_modify (f : World -> World) :
  (forall w, R w (f w)) -> respects R (modify f).
Proof. intros Hf w. apply Hf. Qed.

Lemma respects_bind {A B} (m : M A) (k : A -> M B) :
  respects R m -> (forall a, respects R (k a)) -> respects R (bind m k).
Proof.
  intros Hm Hk w. specialize (Hm w). rewrite run_bind.
  destruct (m w) as [[[a|e] w1] e1]; unfold world_of in *; simpl in *;
    [|exact Hm].
  eapply R_trans; [exact Hm | apply Hk].
Qed.

Lemma respects_try {A} (m h : M A) (handles : exn -> bool) :
  respects R m -> respects R h -> respects R (try_except m handles h).
Proof.
  intros Hm Hh w. specialize (Hm w). unfold try_except.
  destruct (m w) as [[[a|e] w1] e1]; unfold world_of in *; simpl in *;
    [exact Hm|].
  destruct (handles e); [|exact Hm].
  specialize (Hh w1). destruct (h w1) as [[r w2] e2]. simpl in *.
  eapply R_trans; eassumption.
Qed.

Lemma respects_for_fold {A S} (l : list A) (s : S) (body : A -> S -> M S) :
  (forall x s', respects R (body x s')) -> respects R (for_fold l s body).
Proof.
  intros Hb. revert s. induction l as [|x l IH]; intros s; simpl.
  - apply respects_ret.
  - apply respects_bind; [apply Hb | intros s'; apply IH].
Qed.

Lemma respects_for_each {A} (l : list A) (body : A -> M unit) :
  (forall x, respects R (body x)) -> respects R (for_each l body).
Proof. intros Hb. apply respects_for_fold. intros x _. apply Hb. Qed.

Lemma respects_when (b : bool) (m : M unit) :
  respects R m -> respects R (when b m).
Proof. intros Hm. destruct b; [exact Hm | apply respects_ret]. Qed.

End Respects.

Lemma blacklist_grows_refl (w : World) : blacklist_grows w w.
Proof. exists []. now rewrite app_nil_r. Qed.

Lemma blacklist_grows_trans (w1 w2 w3 : World) :
  blacklist_grows w1 w2 -> blacklist_grows w2 w3 -> blacklist_grows w1 w3.
Proof.
  intros [l1 H1] [l2 H2]. exists (l1 ++ l2). now rewrite H2, H1, app_assoc.
Qed.

Lemma blacklist_grows_keeps (w w' : World) (name : string) :
  blacklist_grows w w' -> In name (blacklist w) -> In name (blacklist w').
Proof. intros [l ->] H. apply in_or_app. now left. Qed.

Create HintDb grows discriminated.

(** Splits a goal [respects blacklist_grows m] along the steps of [m],
    closing the steps already known to grow the blacklist. *)
Ltac grows :=
  repeat first
    [ solve [auto with grows nocore]
    | apply (respects_bind blacklist_grows_trans); [|intro]
    | apply (respects_for_fold blacklist_grows_refl blacklist_grows_trans);
      intros
    | apply (respects_for_each blacklist_grows_refl blacklist_grows_trans);
      intros
    | apply (respects_when blacklist_grows_refl)
    | apply (respects_try blacklist_grows_trans)
    | apply (respects_get blacklist_grows_refl)
    | apply (respects_ret blacklist_grows_refl)
    | apply (respects_raise blacklist_grows_refl)
    | apply (respects_emit blacklist_grows_refl)
    | apply respects_modify; intros ?w; simpl;
      first [ exists []; simpl; symmetry; apply app_nil_r
            | eexists; simpl; reflexivity ]
    | match goal with
      | |- respects _ (if ?b then _ else _) => destruct b
      | |- respects _ (match ?x with _ => _ end) => destruct x
      end ].

Lemma grows_factory (env : Env) :
  respects blacklist_grows (Hacs.factory_execute_batch env).
Proof. unfold Hacs.factory_execute_batch. grows. Qed.

Lemma grows_startup_check :
  respects blacklist_grows Hacs.handle_critical_repositories_startup.
Proof. unfold Hacs.handle_critical_repositories_startup. grows. Qed.

Lemma grows_guard (env : Env) :
  respects blacklist_grows (Hacs.handle_critical_repositories env).
Proof.
  unfold Hacs.handle_critical_repositories, Hacs.get_critical,
    Hacs.critical_step. grows.
Qed.

Lemma grows_enforcer (env : Env) :
  respects blacklist_grows (Hacs.clear_out_blacklisted_repositories env).
Proof.
  unfold Hacs.clear_out_blacklisted_repositories, Hacs.blacklist_step.
  grows.
Qed.

Lemma grows_get_repositories (env : Env) :
  respects blacklist_grows (Hacs.get_repositories env).
Proof. unfold Hacs.get_repositories. grows. Qed.

#[local] Hint Resolve grows_factory grows_startup_check grows_guard
  grows_enforcer grows_get_repositories : grows.

Lemma grows_load_known (env : Env) :
  respects blacklist_grows (Hacs.load_known_repositories env).
Proof. unfold Hacs.load_known_repositories. grows. Qed.

#[local] Hint Resolve grows_load_known : grows.

Lemma grows_installed (env : Env) :
  respects blacklist_grows (Hacs.recuring_tasks_installed env).
Proof. unfold Hacs.recuring_tasks_installed. grows. Qed.

Lemma grows_all (env : Env) :
  respects blacklist_grows (Hacs.recuring_tasks_all env).
Proof. unfold Hacs.recuring_tasks_all. grows. Qed.

#[local] Hint Resolve grows_installed grows_all : grows.

Lemma grows_startup (env env' : Env) :
  respects blacklist_grows (Hacs.startup_tasks env env').
Proof. unfold Hacs.startup_tasks. grows. Qed.

(** ** The blacklist as a set *)

Lemma guard_blacklists_every_advisory
      (env : Env) (critical : list Advisory) (w : World) :
  critical_contents env = RemoteContent (Some critical) ->
  forall a, In a critical ->
    In (adv_repository a)
       (blacklist (world_of (Hacs.handle_critical_repositories env w))).
Proof.
  intros Hf a Ha.
  assert (critical <> []) as Hne by (intros ->; destruct Ha).
  destruct (@guard_run_spec env critical Hf Hne w)
    as [recs [_ [_ [_ [Hw _]]]]].
  cbv zeta in Hw. rewrite Hw. simpl.
  apply in_or_app. right. now apply in_map.
Qed.

Lemma keeps_nodup_refl (w : World) : keeps_nodup w w.
Proof. intros H. exact H. Qed.

Lemma keeps_nodup_trans (w1 w2 w3 : World) :
  keeps_nodup w1 w2 -> keeps_nodup w2 w3 -> keeps_nodup w1 w3.
Proof. unfold keeps_nodup. auto. Qed.

(** The step of [load_known_repositories] that feeds the blacklist tests
    membership before it appends. *)
Lemma load_known_blacklist_step (item : string) :
  respects keeps_nodup
    (w <- get ;;
     when (negb (Str.mem item (blacklist w)))
          (emit (RemovedType item "blacklist") ;;
           modify (fun w => set_blacklist (blacklist w ++ [item]) w))).
Proof.
  intros w Hn. cbv [bind get]. simpl.
  destruct (Str.mem item (blacklist w)) eqn:Hm; simpl; [exact Hn|].
  apply mem_false in Hm.
  apply NoDup_app; [exact Hn | repeat constructor; intros [] |].
  intros x Hx [<-|[]]. contradiction.
Qed.

Create HintDb nodup discriminated.

Ltac keeps :=
  repeat first
    [ solve [auto with nodup nocore]
    | apply (respects_bind keeps_nodup_trans); [|intro]
    | apply (respects_for_fold keeps_nodup_refl keeps_nodup_trans); intros
    | apply (respects_for_each keeps_nodup_refl keeps_nodup_trans); intros
    | apply (respects_when keeps_nodup_refl)
    | apply (respects_get keeps_nodup_refl)
    | apply (respects_ret keeps_nodup_refl)
    | apply (respects_emit keeps_nodup_refl)
    | apply respects_modify; intros ?w ?H; exact H
    | match goal with
      | |- respects _ (if ?b then _ else _) => destruct b
      end ].

#[local] Hint Resolve load_known_blacklist_step : nodup.

Lemma load_known_keeps_nodup (env : Env) :
  respects keeps_nodup (Hacs.load_known_repositories env).
Proof.
  unfold Hacs.load_known_repositories, Hacs.get_repositories,
    Hacs.factory_execute_batch. keeps.
Qed.

(** C7.  The guard appends every advisory name to the blacklist without
    testing membership: a second pass over the same feed, and likewise the
    startup sweep, which runs the guard and then the installed sweep with
    its own guard pass, leave the same name in the blacklist twice. *)
Theorem guard_appends_names_already_blacklisted :
  let w0 := Sample.world_with [Sample.theme_x] [] in
  let w1 := world_of (Hacs.handle_critical_repositories Sample.env_malware w0) in
  let w2 := world_of (Hacs.handle_critical_repositories Sample.env_malware w1) in
  blacklist w1 = ["alice/theme-x"] /\
  blacklist w2 = ["alice/theme-x"; "alice/theme-x"] /\
  ~ NoDup (blacklist w2) /\
  blacklist (world_of (Hacs.startup_tasks Sample.env_malware
                         Sample.env_malware w0)) =
    ["alice/theme-x"; "alice/theme-x"].
Proof.
  cbv zeta. repeat split.
  intros H. inversion H as [|x l Hx _]. apply Hx. now left.
Qed.

(** ** What the steps of a sweep do to the flag and which calls they make *)

Create HintDb sweep discriminated.

(** Splits a goal [steady allow m] or [total m] along the steps of [m]. *)
Ltac walk :=
  repeat first
    [ solve [auto with sweep nocore]
    | apply steady_bind; [|intro]
    | apply total_bind; [|intro]
    | apply steady_for_fold; intros
    | apply steady_for_each; intros
    | apply total_for_fold; intros
    | apply total_for_each; intros
    | apply steady_when
    | apply total_when
    | apply steady_try
    | apply steady_emit; reflexivity
    | apply steady_modify; reflexivity
    | apply steady_get | apply steady_ret | apply steady_raise
    | apply total_get | apply total_ret | apply total_emit
    | apply total_modify
    | match goal with
      | |- steady _ (if ?b then _ else _) => destruct b
      | |- steady _ (match ?x with _ => _ end) => destruct x
      | |- total (if ?b then _ else _) => destruct b
      | |- total (match ?x with _ => _ end) => destruct x
      end ].

Lemma steady_factory (env : Env) :
  steady quiet (Hacs.factory_execute_batch env).
Proof. unfold Hacs.factory_execute_batch. walk. Qed.

Lemma total_factory (env : Env) : total (Hacs.factory_execute_batch env).
Proof. unfold Hacs.factory_execute_batch. walk. Qed.

Lemma steady_startup_check :
  steady quiet Hacs.handle_critical_repositories_startup.
Proof. unfold Hacs.handle_critical_repositories_startup. walk. Qed.

Lemma total_startup_check : total Hacs.handle_critical_repositories_startup.
Proof. unfold Hacs.handle_critical_repositories_startup. walk. Qed.

Lemma steady_guard (env : Env) :
  steady no_write_no_status (Hacs.handle_critical_repositories env).
Proof.
  unfold Hacs.handle_critical_repositories, Hacs.get_critical,
    Hacs.critical_step. walk.
Qed.

Lemma steady_enforcer (env : Env) :
  steady no_status (Hacs.clear_out_blacklisted_repositories env).
Proof.
  unfold Hacs.clear_out_blacklisted_repositories, Hacs.blacklist_step. walk.
Qed.

Lemma total_blacklist_step (env : Env) (name : string) (b : bool) :
  total (Hacs.blacklist_step env name b).
Proof.
  intros w. rewrite blacklist_step_run.
  destruct (blacklisted_entry (repositories w) name) as [r|];
    [destruct (status_installed r)|]; eexists; reflexivity.
Qed.

#[local] Hint Resolve steady_factory total_factory steady_startup_check
  total_startup_check steady_guard steady_enforcer total_blacklist_step
  : sweep.

Lemma total_enforcer (env : Env) :
  total (Hacs.clear_out_blacklisted_repositories env).
Proof. unfold Hacs.clear_out_blacklisted_repositories. walk. Qed.

Lemma steady_get_repositories (env : Env) :
  steady quiet (Hacs.get_repositories env).
Proof. unfold Hacs.get_repositories. walk. Qed.

Lemma total_get_repositories (env : Env) : total (Hacs.get_repositories env).
Proof. unfold Hacs.get_repositories. walk. Qed.

#[local] Hint Resolve total_enforcer steady_get_repositories
  total_get_repositories : sweep.

Lemma steady_load_known (env : Env) :
  steady quiet (Hacs.load_known_repositories env).
Proof. unfold Hacs.load_known_repositories. walk. Qed.

Lemma total_load_known (env : Env) :
  total (Hacs.load_known_repositories env).
Proof. unfold Hacs.load_known_repositories. walk. Qed.

#[local] Hint Resolve steady_load_known total_load_known : sweep.

(** ** Following a run step by step *)

Section Post.

Context {A : Type}.
Variable w : World.

Lemma post_bind {B} (m : M A) (k : A -> M B)
      (Q : result B -> World -> list Obs -> Prop) :
  post m w (fun r w1 e1 =>
    match r with
    | Ok a => post (k a) w1 (fun r' w2 e2 => Q r' w2 (e1 ++ e2))
    | Raise e => Q (Raise e) w1 e1
    end) ->
  post (bind m k) w Q.
Proof.
  unfold post. rewrite run_bind.
  destruct (m w) as [[[a|e] w1] e1]; unfold outcome, world_of, observed;
    simpl; auto.
Qed.

Lemma post_steady (allow : Event -> bool) (m : M A)
      (Q : result A -> World -> list Obs -> Prop) :
  steady allow m ->
  background_task w = true ->
  (forall r w1 e1, background_task w1 = true -> flagged allow e1 ->
                   Q r w1 e1) ->
  post m w Q.
Proof.
  intros Hs Hw HQ. destruct (Hs w) as [H1 H2]. unfold post.
  apply HQ; [congruence|]. unfold flagged. now rewrite Hw in H2.
Qed.

Lemma post_steady_total (allow : Event -> bool) (m : M A)
      (Q : result A -> World -> list Obs -> Prop) :
  steady allow m -> total m ->
  background_task w = true ->
  (forall a w1 e1, background_task w1 = true -> flagged allow e1 ->
                   Q (Ok a) w1 e1) ->
  post m w Q.
Proof.
  intros Hs Ht Hw HQ. destruct (Hs w) as [H1 H2]. destruct (Ht w) as [a Ha].
  unfold post. rewrite Ha. apply HQ; [congruence|].
  unfold flagged. now rewrite Hw in H2.
Qed.

End Post.

Lemma post_emit (w : World) (e : Event)
      (Q : result unit -> World -> list Obs -> Prop) :
  Q (Ok tt) w [mkObs (background_task w) e] -> post (emit e) w Q.
Proof. auto. Qed.

Lemma post_modify (w : World) (f : World -> World)
      (Q : result unit -> World -> list Obs -> Prop) :
  Q (Ok tt) (f w) [] -> post (modify f) w Q.
Proof. auto. Qed.

Lemma post_get (w : World) (Q : result World -> World -> list Obs -> Prop) :
  Q (Ok w) w [] -> post get w Q.
Proof. auto. Qed.

Lemma flagged_app (allow : Event -> bool) (l1 l2 : list Obs) :
  flagged allow l1 -> flagged allow l2 -> flagged allow (l1 ++ l2).
Proof. intros. apply Forall_app. now split. Qed.

Lemma flagged_weaken (allow allow' : Event -> bool) (l : list Obs) :
  (forall e, allow e = true -> allow' e = true) ->
  flagged allow l -> flagged allow' l.
Proof.
  intros Hi. apply Forall_impl. intros o [H1 H2]. auto.
Qed.

Lemma quiet_no_write_no_status (e : Event) :
  quiet e = true -> no_write_no_status e = true.
Proof.
  unfold quiet, no_write_no_status.
  destruct (is_write e), (is_status e); simpl; auto.
Qed.

(** The loops that queue update tasks make no call and cannot raise. *)
Lemma steady_task_loop (select : Repository -> World -> bool)
      (task : Repository -> Task) (l : list Repository) :
  steady quiet
    (for_each l (fun repository =>
       w <- get ;;
       when (select repository w)
            (modify (fun w => set_tasks (tasks w ++ [task repository]) w)))).
Proof. walk. Qed.

Lemma total_task_loop (select : Repository -> World -> bool)
      (task : Repository -> Task) (l : list Repository) :
  total
    (for_each l (fun repository =>
       w <- get ;;
       when (select repository w)
            (modify (fun w => set_tasks (tasks w ++ [task repository]) w)))).
Proof. walk. Qed.

(** ** The shape of the installed sweep *)

Lemma installed_shape (env : Env) (w : World) :
  post (Hacs.recuring_tasks_installed env) w (fun r w' obs =>
    exists mid,
      flagged no_write_no_status mid /\
      match r with
      | Ok _ =>
          obs = installed_opening w ++ mid ++ installed_closing /\
          background_task w' = false
      | Raise _ =>
          obs = installed_opening w ++ mid /\ background_task w' = true
      end).
Proof.
  unfold Hacs.recuring_tasks_installed.
  apply post_bind, post_emit.
  apply post_bind, post_modify.
  apply post_bind, post_emit.
  apply post_bind, post_emit.
  apply post_bind, post_emit.
  apply post_bind, post_get.
  apply post_bind.
  eapply post_steady_total;
    [apply steady_task_loop | apply total_task_loop | reflexivity |].
  intros _ w1 e1 Hw1 He1.
  apply post_bind.
  eapply post_steady_total;
    [apply steady_factory | apply total_factory | exact Hw1 |].
  intros _ w2 e2 Hw2 He2.
  apply post_bind.
  eapply post_steady; [apply steady_guard | exact Hw2 |].
  intros [[]|e] w3 e3 Hw3 He3.
  - apply post_bind, post_modify.
    apply post_bind, post_emit.
    apply post_bind, post_emit.
    apply post_emit.
    exists ([mkObs true (Log Debug RatelimitsRemaining);
             mkObs true (Log Debug RatelimitsResetUtc)]
            ++ e1 ++ e2 ++ e3).
    split; [|split; [|reflexivity]].
    + repeat apply flagged_app;
        try (eapply flagged_weaken;
             [apply quiet_no_write_no_status | eassumption]);
        try assumption.
      repeat constructor.
    + simpl. rewrite <- ?app_assoc. reflexivity.
  - exists ([mkObs true (Log Debug RatelimitsRemaining);
             mkObs true (Log Debug RatelimitsResetUtc)]
            ++ e1 ++ e2 ++ e3).
    split; [|split; [|exact Hw3]].
    + repeat apply flagged_app;
        try (eapply flagged_weaken;
             [apply quiet_no_write_no_status | eassumption]);
        try assumption.
      repeat constructor.
    + simpl. rewrite <- ?app_assoc. reflexivity.
Qed.

Lemma post_consequence {A} (m : M A) (w : World)
      (Q0 Q : result A -> World -> list Obs -> Prop) :
  post m w Q0 -> (forall r w1 e1, Q0 r w1 e1 -> Q r w1 e1) -> post m w Q.
Proof. unfold post. auto. Qed.

(** What a sweep sees of the enforcer: it returns, leaves the flag alone,
    fires no status notification and writes once exactly when it
    unregistered something. *)
Lemma enforcer_post (env : Env) (w : World) :
  background_task w = true ->
  post (Hacs.clear_out_blacklisted_repositories env) w (fun r w1 es =>
    r = Ok tt /\ background_task w1 = true /\ flagged no_status es /\
    writes_iff_removed es).
Proof.
  intros Hw.
  destruct (enforcer_run_spec env w) as [evs [Ho [_ [_ [Hc _]]]]].
  destruct (steady_enforcer env w) as [Hf He].
  unfold post. cbv zeta in *. unfold events_of in Hc.
  repeat split; try assumption; try congruence.
  unfold flagged. now rewrite Hw in He.
Qed.

(** ** The shape of the full sweep *)

Lemma all_shape (env : Env) (w : World) :
  post (Hacs.recuring_tasks_all env) w (fun r w' obs =>
    exists mid es,
      flagged quiet mid /\ flagged no_status es /\
      writes_iff_removed es /\
      r = Ok tt /\ background_task w' = false /\
      obs = all_opening w ++ mid ++ es ++ all_closing).
Proof.
  unfold Hacs.recuring_tasks_all.
  apply post_bind, post_emit.
  apply post_bind, post_emit.
  apply post_bind, post_modify.
  apply post_bind, post_emit.
  apply post_bind, post_emit.
  apply post_bind, post_emit.
  apply post_bind, post_get.
  apply post_bind.
  eapply post_steady_total;
    [apply (steady_task_loop (fun r w => Str.mem (category r) (categories w)))
    | apply (total_task_loop (fun r w => Str.mem (category r) (categories w)))
    | reflexivity |].
  intros _ w1 e1 Hw1 He1.
  apply post_bind.
  eapply post_steady_total;
    [apply steady_factory | apply total_factory | exact Hw1 |].
  intros _ w2 e2 Hw2 He2.
  apply post_bind.
  eapply post_steady_total;
    [apply steady_load_known | apply total_load_known | exact Hw2 |].
  intros _ w3 e3 Hw3 He3.
  apply post_bind.
  eapply post_consequence; [apply (@enforcer_post env w3 Hw3)|].
  intros r w4 e4 [-> [Hw4 [He4 Hc4]]].
  apply post_bind, post_modify.
  apply post_bind, post_emit.
  apply post_bind, post_emit.
  apply post_bind, post_emit.
  apply post_emit.
  exists ([mkObs true (Log Debug RatelimitsRemaining);
           mkObs true (Log Debug RatelimitsResetUtc)]
          ++ e1 ++ e2 ++ e3), e4.
  split; [|split; [exact He4|split; [exact Hc4|]]].
  - repeat apply flagged_app; try assumption. repeat constructor.
  - split; [reflexivity|]. split; [reflexivity|].
    simpl. rewrite <- ?app_assoc. reflexivity.
Qed.

(** ** The shape of the startup sweep *)

Lemma startup_shape (env env' : Env) (w : World) :
  post (Hacs.startup_tasks env env') w (fun r w' obs =>
    exists a es i,
      flagged no_write_no_status a /\ flagged no_status es /\
      writes_iff_removed es /\ flagged no_write_no_status i /\
      ((is_raise r = true /\ background_task w' = true /\
        es = [] /\ obs = startup_opening ++ a) \/
       (is_raise r = true /\ background_task w' = true /\
        obs = startup_opening ++ a ++ es ++ startup_arming
              ++ installed_opening (set_background_task true w) ++ i) \/
       (r = Ok tt /\ background_task w' = false /\
        obs = startup_opening ++ a ++ es ++ startup_arming
              ++ installed_opening (set_background_task true w) ++ i
              ++ installed_closing ++ startup_closing))).
Proof.
  unfold Hacs.startup_tasks.
  apply post_bind, post_modify.
  apply post_bind, post_emit.
  apply post_bind, post_emit.
  apply post_bind, post_emit.
  apply post_bind, post_emit.
  apply post_bind.
  eapply post_steady_total;
    [apply steady_startup_check | apply total_startup_check | reflexivity |].
  intros _ w1 e1 Hw1 He1.
  apply post_bind.
  eapply post_steady; [apply steady_guard | exact Hw1 |].
  intros [[]|e] w2 e2 Hw2 He2.
  2:{ exists ([mkObs true (Log Debug RatelimitsRemaining);
               mkObs true (Log Debug RatelimitsResetUtc)] ++ e1 ++ e2), [], [].
      split; [|split; [constructor|split; [reflexivity|split; [constructor|]]]].
      - repeat apply flagged_app; try assumption; [repeat constructor|].
        eapply flagged_weaken; [apply quiet_no_write_no_status|exact He1].
      - left. split; [reflexivity|]. split; [exact Hw2|].
        split; [reflexivity|].
        simpl. rewrite <- ?app_assoc. reflexivity. }
  apply post_bind.
  eapply post_steady_total;
    [apply steady_load_known | apply total_load_known | exact Hw2 |].
  intros _ w3 e3 Hw3 He3.
  apply post_bind.
  eapply post_consequence; [apply (@enforcer_post env w3 Hw3)|].
  intros r w4 e4 [-> [Hw4 [He4 Hc4]]].
  apply post_bind, post_emit.
  apply post_bind, post_modify.
  apply post_bind, post_emit.
  apply post_bind, post_modify.
  apply post_bind, post_emit.
  apply post_bind.
  eapply post_consequence; [apply installed_shape|].
  intros r w5 e5 [i [Hi Hr]].
  assert (flagged no_write_no_status
            ([mkObs true (Log Debug RatelimitsRemaining);
              mkObs true (Log Debug RatelimitsResetUtc)]
             ++ e1 ++ e2 ++ e3)) as Ha.
  { repeat apply flagged_app; try assumption; [repeat constructor| |];
      (eapply flagged_weaken; [apply quiet_no_write_no_status|eassumption]). }
  destruct r as [[]|e]; destruct Hr as [-> Hw5].
  - apply post_bind, post_modify.
    apply post_bind, post_modify.
    apply post_bind, post_modify.
    apply post_bind, post_emit.
    apply post_emit.
    eexists _, e4, i. split; [exact Ha|]. split; [exact He4|].
    split; [exact Hc4|]. split; [exact Hi|].
    right; right. split; [reflexivity|]. split; [reflexivity|].
    unfold installed_opening. simpl. rewrite Hw4.
    rewrite <- ?app_assoc. simpl. rewrite <- ?app_assoc. reflexivity.
  - eexists _, e4, i. split; [exact Ha|]. split; [exact He4|].
    split; [exact Hc4|]. split; [exact Hi|].
    right; left. split; [reflexivity|]. split; [exact Hw5|].
    unfold installed_opening. simpl. rewrite Hw4.
    rewrite <- ?app_assoc. simpl. rewrite <- ?app_assoc. reflexivity.
Qed.

(** ** How the sweeps end *)

Lemma guard_outcome (env : Env) (w : World) :
  outcome (Hacs.handle_critical_repositories env w) = fetch_outcome env.
Proof.
  rewrite guard_run. unfold fetch_outcome.
  destruct (critical_contents env) as [e|[[|a l]|]]; try reflexivity.
  - destruct (is_AIOGitHubException e); reflexivity.
  - destruct (guard_loop env (persisted_names w) (a :: l) (false, []) w)
      as [evs [recs [Ho _]]].
    cbv zeta in *. now rewrite Ho.
Qed.

Lemma post_total {A} (m : M A) (w : World)
      (Q : result A -> World -> list Obs -> Prop) :
  total m -> (forall a w1 e1, Q (Ok a) w1 e1) -> post m w Q.
Proof. intros Ht HQ. destruct (Ht w) as [a Ha]. unfold post. now rewrite Ha. Qed.

Lemma post_outcome {A} (m : M A) (w : World) (r0 : result A)
      (Q : result A -> World -> list Obs -> Prop) :
  outcome (m w) = r0 -> (forall w1 e1, Q r0 w1 e1) -> post m w Q.
Proof. intros Ho HQ. unfold post. now rewrite Ho. Qed.

Lemma installed_outcome (env : Env) (w : World) :
  outcome (Hacs.recuring_tasks_installed env w) = fetch_outcome env.
Proof.
  change (post (Hacs.recuring_tasks_installed env) w
               (fun r _ _ => r = fetch_outcome env)).
  unfold Hacs.recuring_tasks_installed.
  apply post_bind, post_emit.
  apply post_bind, post_modify.
  apply post_bind, post_emit.
  apply post_bind, post_emit.
  apply post_bind, post_emit.
  apply post_bind, post_get.
  apply post_bind.
  apply post_total; [apply total_task_loop|]. intros _ w1 _.
  apply post_bind.
  apply post_total; [apply total_factory|]. intros _ w2 _.
  apply post_bind.
  eapply post_outcome; [apply guard_outcome|]. intros w3 _.
  destruct (fetch_outcome env) as [[]|e]; reflexivity.
Qed.

Lemma all_outcome (env : Env) (w : World) :
  outcome (Hacs.recuring_tasks_all env w) = Ok tt.
Proof.
  pose proof (all_shape env w) as H. unfold post in H.
  destruct H as [mid [es [_ [_ [_ [Hr _]]]]]]. exact Hr.
Qed.

Lemma startup_outcome (env env' : Env) (w : World) :
  outcome (Hacs.startup_tasks env env' w) =
  match fetch_outcome env with
  | Ok _ => fetch_outcome env'
  | Raise e => Raise e
  end.
Proof.
  change (post (Hacs.startup_tasks env env') w
               (fun r _ _ => r = match fetch_outcome env with
                                 | Ok _ => fetch_outcome env'
                                 | Raise e => Raise e
                                 end)).
  unfold Hacs.startup_tasks.
  apply post_bind, post_modify.
  apply post_bind, post_emit.
  apply post_bind, post_emit.
  apply post_bind, post_emit.
  apply post_bind, post_emit.
  apply post_bind.
  apply post_total; [apply total_startup_check|]. intros _ w1 _.
  apply post_bind.
  eapply post_outcome; [apply guard_outcome|]. intros w2 _.
  destruct (fetch_outcome env) as [[]|e]; [|reflexivity].
  apply post_bind.
  apply post_total; [apply total_load_known|]. intros _ w3 _.
  apply post_bind.
  apply post_total; [apply total_enforcer|]. intros _ w4 _.
  apply post_bind, post_emit.
  apply post_bind, post_modify.
  apply post_bind, post_emit.
  apply post_bind, post_modify.
  apply post_bind, post_emit.
  apply post_bind.
  eapply post_outcome; [apply installed_outcome|]. intros w5 _.
  destruct (fetch_outcome env') as [[]|e]; reflexivity.
Qed.

(** ** Reading the flag and the writes off a shape *)

Lemma flagged_count (allow p : Event -> bool) (l : list Obs) :
  (forall e, allow e = true -> p e = false) ->
  flagged allow l -> count p (map event l) = 0.
Proof.
  intros Hi Hl. apply count_zero. apply Forall_map.
  eapply Forall_impl; [|exact Hl]. intros o [_ Ho]. auto.
Qed.

Lemma flagged_none (allow p : Event -> bool) (l : list Obs) :
  (forall e, allow e = true -> p e = false) ->
  flagged allow l -> existsb p (map event l) = false.
Proof.
  intros Hi Hl. apply existsb_false_forall. apply Forall_map.
  eapply Forall_impl; [|exact Hl]. intros o [_ Ho]. auto.
Qed.

Lemma no_write_no_status_write (e : Event) :
  no_write_no_status e = true -> is_write e = false.
Proof. unfold no_write_no_status. now destruct (is_write e). Qed.

Lemma no_write_no_status_status (e : Event) :
  no_write_no_status e = true -> is_status e = false.
Proof.
  unfold no_write_no_status. destruct (is_write e), (is_status e); auto.
Qed.

Lemma no_status_status (e : Event) : no_status e = true -> is_status e = false.
Proof. unfold no_status. now destruct (is_status e). Qed.

Lemma quiet_write (e : Event) : quiet e = true -> is_write e = false.
Proof. unfold quiet. now destruct (is_write e). Qed.

Lemma quiet_status (e : Event) : quiet e = true -> is_status e = false.
Proof. unfold quiet. destruct (is_write e), (is_status e); auto. Qed.

Lemma quiet_remove (e : Event) : quiet e = true -> is_remove e = false.
Proof.
  unfold quiet. destruct (is_write e), (is_status e), (is_remove e); auto.
Qed.

Lemma after_first_status_none (l : list Obs) :
  Forall (fun o => is_status (event o) = false) l ->
  after_first_status l = [].
Proof.
  induction 1 as [|o l Ho _ IH]; simpl; [reflexivity|]. now rewrite Ho.
Qed.

Lemma after_first_status_app (l rest : list Obs) :
  Forall (fun o => is_status (event o) = false) l ->
  after_first_status (l ++ rest) = after_first_status rest.
Proof.
  induction 1 as [|o l Ho _ IH]; simpl; [reflexivity|]. now rewrite Ho.
Qed.

Lemma find_status_app (l rest : list Obs) :
  Forall (fun o => is_status (event o) = false) l ->
  first_status (l ++ rest) = first_status rest.
Proof.
  unfold first_status.
  induction 1 as [|o l Ho _ IH]; simpl; [reflexivity|]. now rewrite Ho.
Qed.

Lemma flagged_no_status (allow : Event -> bool) (l : list Obs) :
  (forall e, allow e = true -> is_status e = false) ->
  flagged allow l -> Forall (fun o => is_status (event o) = false) l.
Proof. intros Hi. apply Forall_impl. intros o [_ Ho]. auto. Qed.

Lemma flagged_flag (allow : Event -> bool) (l : list Obs) :
  flagged allow l -> Forall (fun o => flag_at o = true) l.
Proof. apply Forall_impl. now intros o [Ho _]. Qed.

(** ** The background-task flag across a sweep *)

Lemma after_first_status_cons (pre rest : list Obs) (s : Obs) :
  Forall (fun o => is_status (event o) = false) pre ->
  is_status (event s) = true ->
  after_first_status (pre ++ s :: rest) = rest.
Proof.
  intros Hp Hs. rewrite after_first_status_app by assumption.
  simpl. now rewrite Hs.
Qed.

Lemma between_status_delimited (pre mid post : list Obs) (s1 s2 : Obs) :
  Forall (fun o => is_status (event o) = false) pre ->
  Forall (fun o => is_status (event o) = false) mid ->
  Forall (fun o => is_status (event o) = false) post ->
  is_status (event s1) = true -> is_status (event s2) = true ->
  between_status (pre ++ s1 :: mid ++ s2 :: post) = mid.
Proof.
  intros Hp Hm Hq H1 H2. unfold between_status.
  rewrite after_first_status_cons by assumption.
  rewrite rev_app_distr. simpl rev. rewrite <- app_assoc. simpl app.
  rewrite after_first_status_cons;
    [apply rev_involutive | now apply Forall_rev | exact H2].
Qed.

Lemma between_status_single (pre mid : list Obs) (s1 : Obs) :
  Forall (fun o => is_status (event o) = false) pre ->
  Forall (fun o => is_status (event o) = false) mid ->
  is_status (event s1) = true ->
  between_status (pre ++ s1 :: mid) = [].
Proof.
  intros Hp Hm H1. unfold between_status.
  rewrite after_first_status_cons by assumption.
  rewrite after_first_status_none; [reflexivity | now apply Forall_rev].
Qed.

Lemma first_status_cons (pre rest : list Obs) (s : Obs) :
  Forall (fun o => is_status (event o) = false) pre ->
  is_status (event s) = true ->
  first_status (pre ++ s :: rest) = Some s.
Proof.
  intros Hp Hs. rewrite find_status_app by assumption.
  unfold first_status. simpl. now rewrite Hs.
Qed.

Lemma Forall_app_intro {A} (P : A -> Prop) (l1 l2 : list A) :
  Forall P l1 -> Forall P l2 -> Forall P (l1 ++ l2).
Proof. intros. apply Forall_app. now split. Qed.

Lemma installed_flag (env : Env) (w : World) :
  let run := Hacs.recuring_tasks_installed env w in
  background_task (world_of run) = is_raise (outcome run) /\
  first_status (observed run) = Some (mkObs true (BusFire Hacs.status_topic []))
  /\ Forall (fun o => flag_at o = true) (between_status (observed run)).
Proof.
  pose proof (installed_shape env w) as H. unfold post in H.
  destruct H as [mid [Hm H]]. cbv zeta.
  pose proof (flagged_no_status no_write_no_status_status Hm) as Hs.
  destruct (outcome (Hacs.recuring_tasks_installed env w)) as [[]|e];
    destruct H as [-> ->]; (split; [reflexivity|]); split.
  - apply (@first_status_cons [_] _ _); [repeat constructor | reflexivity].
  - change (installed_opening w ++ mid ++ installed_closing)
      with ([mkObs (background_task w)
               (Log Debug
                  (Text "Starting recuring background task for installed repositories"))]
            ++ mkObs true (BusFire Hacs.status_topic [])
            :: mid ++ mkObs false (BusFire Hacs.status_topic [])
            :: [mkObs false DataWrite;
                mkObs false
                  (Log Debug
                     (Text "Recuring background task for installed repositories done"))]).
    rewrite between_status_delimited; try assumption; try reflexivity;
      [now apply flagged_flag in Hm | repeat constructor..].
  - apply (@first_status_cons [_] _ _); [repeat constructor | reflexivity].
  - change (installed_opening w ++ mid)
      with ([mkObs (background_task w)
               (Log Debug
                  (Text "Starting recuring background task for installed repositories"))]
            ++ mkObs true (BusFire Hacs.status_topic []) :: mid).
    rewrite between_status_single; try assumption; try reflexivity;
      [constructor | repeat constructor].
Qed.

Lemma all_flag (env : Env) (w : World) :
  let run := Hacs.recuring_tasks_all env w in
  background_task (world_of run) = is_raise (outcome run) /\
  first_status (observed run) = Some (mkObs true (BusFire Hacs.status_topic []))
  /\ Forall (fun o => flag_at o = true \/ event o = DataWrite)
            (between_status (observed run)).
Proof.
  pose proof (all_shape env w) as H. unfold post in H.
  destruct H as [mid [es [Hm [He [_ [Hr [Hw Ho]]]]]]]. cbv zeta.
  rewrite Hr, Hw, Ho. split; [reflexivity|].
  pose proof (flagged_no_status quiet_status Hm) as Hs1.
  pose proof (flagged_no_status no_status_status He) as Hs2.
  split.
  - apply (@first_status_cons [_; _] _ _); [repeat constructor | reflexivity].
  - assert (all_opening w ++ mid ++ es ++ all_closing =
            [mkObs (background_task w)
               (Log Debug
                  (Text "Starting recuring background task for all repositories"));
             mkObs (background_task w) SetupExtraStores]
            ++ mkObs true (BusFire Hacs.status_topic [])
            :: (mid ++ es ++ [mkObs false DataWrite])
            ++ mkObs false (BusFire Hacs.status_topic [])
            :: [mkObs false
                  (BusFire "hacs/repository" [("action", JStr "reload")]);
                mkObs false
                  (Log Debug
                     (Text "Recuring background task for all repositories done"))])
      as -> by (unfold all_opening, all_closing; simpl;
                rewrite <- ?app_assoc; reflexivity).
    rewrite between_status_delimited; try reflexivity.
    + apply Forall_app_intro;
        [eapply Forall_impl; [|exact Hm]; intros o [Ho' _]; now left|].
      apply Forall_app_intro;
        [eapply Forall_impl; [|exact He]; intros o [Ho' _]; now left|].
      constructor; [now right | constructor].
    + repeat constructor.
    + apply Forall_app_intro; [exact Hs1|].
      apply Forall_app_intro; [exact Hs2|]. repeat constructor.
    + repeat constructor.
Qed.

Lemma startup_flag (env env' : Env) (w : World) :
  let run := Hacs.startup_tasks env env' w in
  background_task (world_of run) = is_raise (outcome run) /\
  first_status (observed run) = Some (mkObs true (BusFire Hacs.status_topic [])).
Proof.
  pose proof (startup_shape env env' w) as H. unfold post in H.
  destruct H as [a [es [i [Ha [He [Hc [Hi H]]]]]]]. cbv zeta.
  destruct H as [[Hr [Hw [_ Ho]]]|[[Hr [Hw Ho]]|[Hr [Hw Ho]]]];
    rewrite Ho, Hw; try rewrite Hr; (split; [reflexivity|]);
    apply (@first_status_cons [_] _ _); try reflexivity; repeat constructor.
Qed.

(** ** The writes of a sweep *)

Lemma writes_iff_removed_bound (es : list Obs) :
  writes_iff_removed es -> count is_write (map event es) <= 1.
Proof.
  unfold writes_iff_removed. intros ->.
  destruct (existsb is_remove (map event es)); lia.
Qed.

Lemma installed_writes (env : Env) (w : World) :
  let run := Hacs.recuring_tasks_installed env w in
  match outcome run with
  | Ok _ =>
      count is_write (events_of run) = 1 /\
      exists before,
        events_of run =
          before ++ [BusFire Hacs.status_topic []; DataWrite;
                     Log Debug
                       (Text "Recuring background task for installed repositories done")]
        /\ count is_write before = 0
  | Raise _ => count is_write (events_of run) = 0
  end.
Proof.
  pose proof (installed_shape env w) as H. unfold post in H.
  destruct H as [mid [Hm H]]. cbv zeta. unfold events_of.
  pose proof (flagged_count is_write no_write_no_status_write Hm) as Hc.
  destruct (outcome (Hacs.recuring_tasks_installed env w)) as [[]|e];
    destruct H as [Ho _]; unfold observed in Ho; rewrite Ho.
  - rewrite !map_app, !count_app, Hc. split; [reflexivity|].
    exists (map event (installed_opening w) ++ map event mid).
    split; [now rewrite app_assoc|]. now rewrite count_app, Hc.
  - now rewrite !map_app, !count_app, Hc.
Qed.

Lemma all_writes (env : Env) (w : World) :
  let run := Hacs.recuring_tasks_all env w in
  outcome run = Ok tt /\
  exists before,
    events_of run =
      before ++ [DataWrite; BusFire Hacs.status_topic [];
                 BusFire "hacs/repository" [("action", JStr "reload")];
                 Log Debug
                   (Text "Recuring background task for all repositories done")]
    /\ count is_write before = (if existsb is_remove before then 1 else 0)
    /\ count is_write (events_of run) =
         (if existsb is_remove (events_of run) then 2 else 1).
Proof.
  pose proof (all_shape env w) as H. unfold post in H.
  destruct H as [mid [es [Hm [He [Hc [Hr [_ Ho]]]]]]]. cbv zeta.
  split; [exact Hr|]. unfold events_of. unfold observed in Ho. rewrite Ho.
  pose proof (flagged_count is_write quiet_write Hm) as Hcm.
  pose proof (flagged_none is_remove quiet_remove Hm) as Hrm.
  exists (map event (all_opening w) ++ map event mid ++ map event es).
  assert (count is_write
            (map event (all_opening w) ++ map event mid ++ map event es) =
          (if existsb is_remove
                (map event (all_opening w) ++ map event mid ++ map event es)
           then 1 else 0)) as Hb.
  { rewrite !count_app, Hcm, !existsb_app, Hrm. exact Hc. }
  split; [now rewrite !map_app, <- !app_assoc|]. split; [exact Hb|].
  rewrite !map_app, !count_app, !existsb_app, Hcm, Hrm.
  red in Hc. rewrite Hc. cbn.
  destruct (existsb is_remove (map event es)); reflexivity.
Qed.

Lemma startup_writes (env env' : Env) (w : World) :
  let run := Hacs.startup_tasks env env' w in
  match outcome run with
  | Ok _ =>
      2 <= count is_write (events_of run) <= 3 /\
      exists before,
        events_of run = before ++ [BusFire Hacs.status_topic []; DataWrite]
  | Raise _ => count is_write (events_of run) <= 1
  end.
Proof.
  pose proof (startup_shape env env' w) as H. unfold post in H.
  destruct H as [a [es [i [Ha [He [Hc [Hi H]]]]]]]. cbv zeta.
  pose proof (flagged_count is_write no_write_no_status_write Ha) as Hca.
  pose proof (flagged_count is_write no_write_no_status_write Hi) as Hci.
  pose proof (writes_iff_removed_bound Hc) as Hce.
  unfold events_of.
  destruct H as [[Hr [_ [_ Ho]]]|[[Hr [_ Ho]]|[Hr [_ Ho]]]];
    unfold observed in Ho; rewrite Ho.
  - destruct (outcome (Hacs.startup_tasks env env' w)); [discriminate|].
    rewrite !map_app, !count_app, Hca. cbn. lia.
  - destruct (outcome (Hacs.startup_tasks env env' w)); [discriminate|].
    rewrite !map_app, !count_app, Hca, Hci. cbn. lia.
  - rewrite Hr. split.
    + rewrite !map_app, !count_app, Hca, Hci. cbn. lia.
    + exists (map event
                (startup_opening ++ a ++ es ++ startup_arming ++
                 installed_opening (set_background_task true w) ++ i ++
                 installed_closing)).
      change [BusFire Hacs.status_topic []; DataWrite]
        with (map event startup_closing).
      rewrite <- map_app. f_equal. rewrite <- !app_assoc. reflexivity.
Qed.

(** C2 (as the code has it).  Each sweep sets the flag before its start
    notification, which therefore observes it set, and the flag is clear
    when the sweep returns; in the installed sweep it is set at every call
    made strictly between the start and the end notification, in the full
    sweep at every such call but the final write, which follows the
    clearing.  Nothing clears the flag when a step raises: a sweep that
    raises (the guard's fetch raising anything but the GitHub exception,
    or returning a document that does not decode) leaves the flag set. *)
Theorem sweep_flag_cleared_only_on_return (env env' : Env) (w : World) :
  let installed := Hacs.recuring_tasks_installed env w in
  let all := Hacs.recuring_tasks_all env w in
  let startup := Hacs.startup_tasks env env' w in
  let start := Some (mkObs true (BusFire Hacs.status_topic [])) in
  (outcome installed = fetch_outcome env /\
   background_task (world_of installed) = is_raise (outcome installed) /\
   first_status (observed installed) = start /\
   Forall (fun o => flag_at o = true) (between_status (observed installed)))
  /\
  (outcome all = Ok tt /\
   background_task (world_of all) = false /\
   first_status (observed all) = start /\
   Forall (fun o => flag_at o = true \/ event o = DataWrite)
          (between_status (observed all)))
  /\
  (outcome startup = match fetch_outcome env with
                     | Ok _ => fetch_outcome env'
                     | Raise e => Raise e
                     end /\
   background_task (world_of startup) = is_raise (outcome startup) /\
   first_status (observed startup) = start).
Proof.
  cbv zeta.
  destruct (installed_flag env w) as [I1 [I2 I3]].
  destruct (all_flag env w) as [A1 [A2 A3]].
  destruct (startup_flag env env' w) as [S1 S2].
  cbv zeta in *. rewrite all_outcome in A1.
  repeat split; try assumption.
  - apply installed_outcome.
  - apply all_outcome.
  - apply startup_outcome.
Qed.

(** C2, the claim as stated fails: an installed sweep whose critical
    document does not decode raises out of the guard after the start
    notification, and the flag is still set when it ends. *)
Lemma sweep_exception_leaves_flag_set :
  let run := Hacs.recuring_tasks_installed Sample.env_undecodable
               (Sample.world_with [Sample.theme_x] []) in
  outcome run = Raise JSONDecodeError /\
  existsb is_status (events_of run) = true /\
  background_task (world_of run) = true.
Proof. repeat split. Qed.

(** The full sweep clears the flag before its final write, which comes
    before the end notification. *)
Example full_sweep_writes_after_clearing :
  In (mkObs false DataWrite)
     (between_status
        (observed (Hacs.recuring_tasks_all Sample.env_quiet
                     (Sample.world_with [Sample.theme_x] [])))).
Proof. vm_compute. repeat (try (left; reflexivity); right). Qed.

(** C4 (as the code has it).  The installed sweep writes the durable state
    once, right after its end notification and only if it returns.  The
    full sweep always returns and writes once after clearing the flag,
    before its end notifications, and once more, earlier, exactly when
    blacklist enforcement unregistered a repository.  The startup sweep,
    when it returns, ends with a write and has written two or three
    times. *)
Theorem sweep_write_counts (env env' : Env) (w : World) :
  let installed := Hacs.recuring_tasks_installed env w in
  let all := Hacs.recuring_tasks_all env w in
  let startup := Hacs.startup_tasks env env' w in
  match outcome installed with
  | Ok _ =>
      count is_write (events_of installed) = 1 /\
      exists before,
        events_of installed =
          before ++ [BusFire Hacs.status_topic []; DataWrite;
                     Log Debug
                       (Text "Recuring background task for installed repositories done")]
        /\ count is_write before = 0
  | Raise _ => count is_write (events_of installed) = 0
  end /\
  (outcome all = Ok tt /\
   exists before,
     events_of all =
       before ++ [DataWrite; BusFire Hacs.status_topic [];
                  BusFire "hacs/repository" [("action", JStr "reload")];
                  Log Debug
                    (Text "Recuring background task for all repositories done")]
     /\ count is_write before = (if existsb is_remove before then 1 else 0)
     /\ count is_write (events_of all) =
          (if existsb is_remove (events_of all) then 2 else 1)) /\
  match outcome startup with
  | Ok _ =>
      2 <= count is_write (events_of startup) <= 3 /\
      exists before,
        events_of startup = before ++ [BusFire Hacs.status_topic []; DataWrite]
  | Raise _ => count is_write (events_of startup) <= 1
  end.
Proof.
  cbv zeta. split; [apply installed_writes|].
  split; [apply all_writes | apply startup_writes].
Qed.

(** C4, the claim as stated fails: a startup sweep that touches nothing
    writes twice, and a full sweep that unregisters one blacklisted
    repository writes twice. *)
Lemma sweeps_write_more_than_once :
  count is_write
    (events_of (Hacs.startup_tasks Sample.env_quiet Sample.env_quiet
                  (Sample.world_with [Sample.theme_x] []))) = 2 /\
  count is_write
    (events_of (Hacs.recuring_tasks_all Sample.env_quiet
                  (Sample.world_with [Sample.plugin_y] ["bob/plugin-y"]))) = 2.
Proof. split; reflexivity. Qed.

(** C5.  When the fetch of the critical list raises the GitHub exception
    or yields the empty list, the guard logs that there is nothing to do
    and returns: it does not raise, makes no other call (no removal, no
    uninstall, no restart, no save) and leaves the world, persisted
    advisories included, as it was; the installed sweep around it
    returns. *)
Theorem guard_returns_early_without_advisories (env : Env) (w : World) :
  critical_contents env = RemoteRaises AIOGitHubException \/
  critical_contents env = RemoteContent (Some []) ->
  Hacs.handle_critical_repositories env w =
    (Ok tt, w,
     [mkObs (background_task w)
            (Log Debug (Text "No critical repositories"))]) /\
  outcome (Hacs.recuring_tasks_installed env w) = Ok tt.
Proof.
  intros H. split.
  - rewrite guard_run. destruct H as [-> | ->]; reflexivity.
  - rewrite installed_outcome. unfold fetch_outcome.
    destruct H as [-> | ->]; reflexivity.
Qed.

Lemma guard_returns_early_without_advisories_witness :
  Hacs.handle_critical_repositories Sample.env_unavailable
    (Sample.world_with [Sample.theme_x] []) =
    (Ok tt, Sample.world_with [Sample.theme_x] [],
     [mkObs false (Log Debug (Text "No critical repositories"))]) /\
  outcome (Hacs.recuring_tasks_installed Sample.env_unavailable
             (Sample.world_with [Sample.theme_x] [])) = Ok tt.
Proof.
  apply (@guard_returns_early_without_advisories Sample.env_unavailable
           (Sample.world_with [Sample.theme_x] [])).
  left. reflexivity.
Defined.

(** ** A scenario of the specification *)

(** A full sweep where the installed theme is absent from the critical
    feed but present in the blacklist feed: the blacklist gains it, the
    warning is logged, the entry stays installed, no restart is requested. *)
Example blacklisted_installed_theme_is_kept :
  let run := Hacs.recuring_tasks_all
               (Sample.env_with (RemoteContent (Some [])) ["alice/theme-x"])
               (Sample.world_with [Sample.theme_x] []) in
  blacklist (world_of run) = ["alice/theme-x"] /\
  In (Log Warning (Hacs.blacklisted_message "alice/theme-x")) (events_of run) /\
  repositories (world_of run) = [Sample.theme_x] /\
  count is_restart (events_of run) = 0 /\
  count is_write (events_of run) = 1.
Proof.
  vm_compute. repeat split. repeat (try (left; reflexivity); right).
Qed.

(* ------------------------------------------------------------------ *)
(** * Further properties *)

(** ** Lookups: which entry is found *)

Lemma get_by_name_first (regs : list Repository) (name : string)
      (r : Repository) :
  Registry.get_by_name regs name = Some r <->
  exists before after,
    regs = before ++ r :: after /\
    Str.eq_upto_case (full_name r) name /\
    forall x, In x before -> ~ Str.eq_upto_case (full_name x) name.
Proof.
  split.
  - induction regs as [|x l IH]; simpl; [discriminate|].
    destruct (String.eqb_spec (Str.lower (full_name x)) (Str.lower name))
      as [E|E].
    + intros [= <-]. exists [], l. repeat split.
      * now apply eq_upto_case_lower.
      * intros y [].
    + intros H. destruct (IH H) as [before [after [-> [Hm Hb]]]].
      exists (x :: before), after. repeat split; [exact Hm|].
      intros y [<-|Hy]; [now rewrite eq_upto_case_lower | auto].
  - intros [before [after [-> [Hm Hb]]]].
    induction before as [|x l IH]; simpl.
    + apply eq_upto_case_lower in Hm. rewrite Hm, String.eqb_refl.
      reflexivity.
    + destruct (String.eqb_spec (Str.lower (full_name x)) (Str.lower name))
        as [E|E].
      * exfalso. apply (Hb x); [now left | now apply eq_upto_case_lower].
      * apply IH. intros y Hy. apply Hb. now right.
Qed.

Lemma get_by_id_first (regs : list Repository) (id : string)
      (r : Repository) :
  Registry.get_by_id regs id = Some r <->
  exists before after,
    regs = before ++ r :: after /\ uid r = id /\
    forall x, In x before -> uid x <> id.
Proof.
  split.
  - induction regs as [|x l IH]; simpl; [discriminate|].
    destruct (String.eqb_spec (uid x) id) as [E|E].
    + intros [= <-]. exists [], l. repeat split; [exact E|]. intros y [].
    + intros H. destruct (IH H) as [before [after [-> [Hm Hb]]]].
      exists (x :: before), after. repeat split; [exact Hm|].
      intros y [<-|Hy]; auto.
  - intros [before [after [-> [Hm Hb]]]].
    induction before as [|x l IH]; simpl.
    + rewrite Hm, String.eqb_refl. reflexivity.
    + destruct (String.eqb_spec (uid x) id) as [E|E].
      * exfalso. apply (Hb x); [now left | exact E].
      * apply IH. intros y Hy. apply Hb. now right.
Qed.

(** X1.  Both lookups return the first match in registry order: the entry
    found matches the query and no entry before it does, and conversely. *)
Theorem lookups_return_first_match
        (regs : list Repository) (query : string) (r : Repository) :
  (Registry.get_by_name regs query = Some r <->
   exists before after,
     regs = before ++ r :: after /\
     Str.eq_upto_case (full_name r) query /\
     forall x, In x before -> ~ Str.eq_upto_case (full_name x) query) /\
  (Registry.get_by_id regs query = Some r <->
   exists before after,
     regs = before ++ r :: after /\ uid r = query /\
     forall x, In x before -> uid x <> query).
Proof. split; [apply get_by_name_first | apply get_by_id_first]. Qed.

Lemma NoDup_map_first {A B} (f : A -> B) (before after : list A) (r x : A) :
  NoDup (map f (before ++ r :: after)) -> In x before -> f x <> f r.
Proof.
  rewrite map_app. simpl. intros Hn Hx E.
  apply NoDup_remove_2 in Hn. apply Hn.
  apply in_or_app. left. rewrite <- E. now apply in_map.
Qed.

(** X2.  Lookup round trip.  In a registry whose full names are distinct
    up to letter case and whose ids are distinct, looking a registered
    entry up by its full name, in any spelling of its letter case, or by
    its id, returns that very entry. *)
Theorem lookup_finds_the_registered_entry
        (regs : list Repository) (r : Repository) (name : string) :
  In r regs ->
  NoDup (map (fun x => Str.lower (full_name x)) regs) ->
  NoDup (map uid regs) ->
  Str.eq_upto_case (full_name r) name ->
  Registry.get_by_name regs name = Some r /\
  Registry.get_by_id regs (uid r) = Some r.
Proof.
  intros Hr Hn Hu Hm. apply in_split in Hr.
  destruct Hr as [before [after ->]]. split.
  - apply get_by_name_first. exists before, after. repeat split; [exact Hm|].
    intros x Hx Hx'.
    apply (NoDup_map_first _ _ _ _ _ Hn Hx).
    apply eq_upto_case_lower in Hm, Hx'. congruence.
  - apply get_by_id_first. exists before, after. repeat split.
    intros x Hx. exact (NoDup_map_first _ _ _ _ _ Hu Hx).
Qed.

Lemma lookup_finds_the_registered_entry_witness :
  Registry.get_by_name [Sample.theme_x; Sample.plugin_y] "Bob/Plugin-Y" =
    Some Sample.plugin_y /\
  Registry.get_by_id [Sample.theme_x; Sample.plugin_y] (uid Sample.plugin_y) =
    Some Sample.plugin_y.
Proof.
  apply (@lookup_finds_the_registered_entry
           [Sample.theme_x; Sample.plugin_y] Sample.plugin_y "Bob/Plugin-Y").
  - right. now left.
  - repeat constructor; simpl; intuition discriminate.
  - repeat constructor; simpl; intuition discriminate.
  - apply eq_upto_case_lower. reflexivity.
Defined.

(** X3.  [is_known] and [get_by_name] agree: a name is known exactly when
    looking it up finds an entry, so a caller that tests [is_known] first
    never gets [None] from [get_by_name]. *)
Theorem is_known_agrees_with_get_by_name
        (regs : list Repository) (name : string) :
  Registry.is_known regs name =
  match Registry.get_by_name regs name with
  | Some _ => true
  | None => false
  end.
Proof.
  destruct (Registry.get_by_name regs name) as [r|] eqn:G.
  - apply is_known_get_by_name. eauto.
  - now apply is_known_false.
Qed.

(** X4.  Whether a name is known depends neither on the order of the
    registry nor on the letter case of the query. *)
Theorem is_known_up_to_order_and_case
        (regs regs' : list Repository) (name name' : string) :
  Permutation regs regs' ->
  Str.eq_upto_case name name' ->
  Registry.is_known regs name = Registry.is_known regs' name'.
Proof.
  intros Hp Hc. apply eq_upto_case_lower in Hc.
  assert (forall l l' n n', Permutation l l' -> Str.lower n = Str.lower n' ->
            Registry.is_known l n = true -> Registry.is_known l' n' = true)
    as Hstep.
  { intros l l' n n' Hl Hn Hk. apply is_known_iff in Hk.
    destruct Hk as [r [Hr Hm]]. apply is_known_iff. exists r. split.
    - eapply Permutation_in; eassumption.
    - apply eq_upto_case_lower. apply eq_upto_case_lower in Hm. congruence. }
  destruct (Registry.is_known regs name) eqn:K1,
           (Registry.is_known regs' name') eqn:K2; try reflexivity.
  - rewrite (Hstep _ _ _ _ Hp Hc K1) in K2. discriminate.
  - rewrite (Hstep _ _ _ _ (Permutation_sym Hp) (eq_sym Hc) K2) in K1.
    discriminate.
Qed.

Lemma is_known_up_to_order_and_case_witness :
  Registry.is_known [Sample.theme_x; Sample.plugin_y] "ALICE/theme-x" =
  Registry.is_known [Sample.plugin_y; Sample.theme_x] "alice/THEME-X".
Proof.
  apply (@is_known_up_to_order_and_case
           [Sample.theme_x; Sample.plugin_y]
           [Sample.plugin_y; Sample.theme_x]
           "ALICE/theme-x" "alice/THEME-X").
  - apply perm_swap.
  - apply eq_upto_case_lower. reflexivity.
Defined.

(** ** The sorted views *)

Section SortedViews.

Variable key : Repository -> string.

Lemma leb_refl (s : string) : String.leb s s = true.
Proof. destruct (String.leb_total s s); assumption. Qed.

Lemma insert_by_perm (x : Repository) (l : list Repository) :
  Permutation (Views.insert_by key x l) (x :: l).
Proof.
  induction l as [|y l IH]; simpl; [reflexivity|].
  destruct (String.leb (key x) (key y)); [reflexivity|].
  rewrite IH. apply perm_swap.
Qed.

Lemma sorted_by_perm (l : list Repository) :
  Permutation (Views.sorted_by key l) l.
Proof.
  induction l as [|x l IH]; simpl; [reflexivity|].
  rewrite insert_by_perm. now constructor.
Qed.

Lemma insert_by_sorted (x : Repository) (l : list Repository) :
  Sorted (fun a b => String.leb (key a) (key b) = true) l ->
  Sorted (fun a b => String.leb (key a) (key b) = true)
         (Views.insert_by key x l).
Proof.
  induction 1 as [|y l Hs IH Hh]; simpl; [repeat constructor|].
  destruct (String.leb (key x) (key y)) eqn:E.
  - constructor; [now constructor | now constructor].
  - constructor; [exact IH|].
    destruct l as [|z l]; simpl.
    + constructor. destruct (String.leb_total (key x) (key y)); congruence.
    + destruct (String.leb (key x) (key z)).
      * constructor. destruct (String.leb_total (key x) (key y)); congruence.
      * constructor. now inversion Hh.
Qed.

Lemma sorted_by_sorted (l : list Repository) :
  Sorted (fun a b => String.leb (key a) (key b) = true)
         (Views.sorted_by key l).
Proof.
  induction l as [|x l IH]; simpl; [constructor|].
  now apply insert_by_sorted.
Qed.

Lemma insert_by_stable (k : string) (x : Repository) (l : list Repository) :
  filter (fun r => String.eqb (key r) k) (Views.insert_by key x l) =
  filter (fun r => String.eqb (key r) k) (x :: l).
Proof.
  induction l as [|y l IH]; [reflexivity|].
  simpl Views.insert_by. destruct (String.leb (key x) (key y)) eqn:E;
    [reflexivity|].
  simpl filter in *. rewrite IH.
  destruct (String.eqb_spec (key x) k) as [Hx|Hx]; [|reflexivity].
  destruct (String.eqb_spec (key y) k) as [Hy|Hy]; [|reflexivity].
  exfalso. rewrite Hx, Hy, leb_refl in E. discriminate.
Qed.

Lemma sorted_by_stable (k : string) (l : list Repository) :
  filter (fun r => String.eqb (key r) k) (Views.sorted_by key l) =
  filter (fun r => String.eqb (key r) k) l.
Proof.
  induction l as [|x l IH]; [reflexivity|].
  simpl Views.sorted_by. rewrite insert_by_stable. simpl. now rewrite IH.
Qed.

End SortedViews.

(** X5.  The sorted views hold exactly the entries of the registry, each
    as often as the registry does, in ascending order of the key (display
    name, or full name), entries with equal keys in registry order; and a
    name is known in a view exactly when it is known in the registry. *)
Theorem sorted_views_are_stable_sorted_permutations
        (display_name : Repository -> string) (regs : list Repository) :
  let by_name := Views.sorted_by_name display_name regs in
  let by_full_name := Views.sorted_by_repository_name regs in
  (Permutation by_name regs /\
   Sorted (fun a b => String.leb (display_name a) (display_name b) = true)
          by_name /\
   forall k, filter (fun r => String.eqb (display_name r) k) by_name =
             filter (fun r => String.eqb (display_name r) k) regs) /\
  (Permutation by_full_name regs /\
   Sorted (fun a b => String.leb (full_name a) (full_name b) = true)
          by_full_name /\
   forall k, filter (fun r => String.eqb (full_name r) k) by_full_name =
             filter (fun r => String.eqb (full_name r) k) regs) /\
  forall name, Registry.is_known by_full_name name =
               Registry.is_known regs name.
Proof.
  cbv zeta. unfold Views.sorted_by_name, Views.sorted_by_repository_name.
  split; [|split].
  - split; [apply sorted_by_perm|]. split; [apply sorted_by_sorted|].
    intros k. apply sorted_by_stable.
  - split; [apply sorted_by_perm|]. split; [apply sorted_by_sorted|].
    intros k. apply sorted_by_stable.
  - intros name.
    destruct (Registry.is_known regs name) eqn:K.
    + apply is_known_iff in K. destruct K as [r [Hr Hm]].
      apply is_known_iff. exists r. split; [|exact Hm].
      eapply Permutation_in; [|exact Hr].
      apply Permutation_sym, sorted_by_perm.
    + destruct (Registry.is_known (Views.sorted_by full_name regs) name)
        eqn:K'; [|reflexivity].
      apply is_known_iff in K'. destruct K' as [r [Hr Hm]].
      assert (Registry.is_known regs name = true) as K''.
      { apply is_known_iff. exists r. split; [|exact Hm].
        eapply Permutation_in; [apply sorted_by_perm | exact Hr]. }
      congruence.
Qed.

(** ** The guard: what it persists, and the alert that follows *)

Lemma guard_run_records (env : Env) (instored : list string)
      (regs regs' : list Repository) (critical : list Advisory)
      (evs : list Event) (recs : list Stored) :
  Spec.GuardRun env instored regs critical evs recs regs' ->
  map advisory_of recs = critical /\
  existsb (fun r => negb (st_acknowledged r)) recs = existsb is_uninstall evs.
Proof.
  induction 1 as [regs|regs a rest r evs recs regs' _ _ [IH1 IH2]
                  |regs a rest evs recs regs' _ _ [IH1 IH2]]; simpl.
  - split; reflexivity.
  - split; [|reflexivity]. rewrite IH1. now destruct a.
  - split; [|exact IH2]. rewrite IH1. now destruct a.
Qed.

Lemma steady_critical_loop (env : Env) (instored : list string)
      (critical : list Advisory) (locals : bool * list Stored) :
  steady (fun e => negb (is_store_save e) && negb (is_restart e))
         (for_fold critical locals (Hacs.critical_step env instored)).
Proof. unfold Hacs.critical_step. walk. Qed.

(** X6.  Over a fetched, non-empty feed the guard replaces the persisted
    advisories by one record per advisory, in feed order and with the
    advisory's repository, reason and link, whatever was persisted before;
    it saves them once, after the last advisory, and only then, if it
    forced an uninstall, requests the restart, which is its last call. *)
Theorem guard_saves_the_feed_then_restarts
        (env : Env) (critical : list Advisory) (w : World) :
  critical_contents env = RemoteContent (Some critical) ->
  critical <> [] ->
  let run := Hacs.handle_critical_repositories env w in
  exists recs before,
    store_critical (world_of run) = Some recs /\
    map advisory_of recs = critical /\
    events_of run =
      before ++ StoreSave "critical" recs ::
      (if existsb is_uninstall before
       then [Log Critical (Text "Resarting Home Assistant"); AsyncStop 100]
       else []) /\
    count is_store_save before = 0 /\
    count is_restart before = 0.
Proof.
  intros Hf Hne run. subst run.
  destruct (guard_loop env (persisted_names w) critical (false, []) w)
    as [evs [recs [Ho [Hg [Hfi [_ [_ Hc]]]]]]].
  destruct (steady_critical_loop env (persisted_names w) critical
              (false, []) w) as [_ Hs].
  cbv zeta in *. rewrite guard_run, Hf.
  destruct critical as [|a l] eqn:Ec; [now elim Hne|]. rewrite <- Ec in *.
  cbv zeta. rewrite Ho.
  remember (for_fold critical (false, [])
              (Hacs.critical_step env (persisted_names w)) w) as loop.
  clear Heqloop.
  unfold outcome, world_of, events_of, observed, stamp in *.
  cbn [fst snd orb app] in *.
  exists recs, (map event (snd loop)).
  split; [reflexivity|]. split; [apply (guard_run_records Hg)|].
  split; [|split; [|exact Hc]].
  - rewrite map_app. f_equal. cbn [map event].
    rewrite <- (existsb_filter_forced (map event (snd loop))), Hfi.
    destruct (existsb is_uninstall evs); reflexivity.
  - apply count_zero. apply Forall_map.
    eapply Forall_impl; [|exact Hs]. intros o [_ Ho'].
    now destruct (is_store_save (event o)).
Qed.

Lemma guard_saves_the_feed_then_restarts_witness :
  let run := Hacs.handle_critical_repositories Sample.env_malware
               (Sample.world_with [Sample.theme_x] []) in
  exists recs before,
    store_critical (world_of run) = Some recs /\
    map advisory_of recs = [Sample.malware] /\
    events_of run =
      before ++ StoreSave "critical" recs ::
      (if existsb is_uninstall before
       then [Log Critical (Text "Resarting Home Assistant"); AsyncStop 100]
       else []) /\
    count is_store_save before = 0 /\
    count is_restart before = 0.
Proof.
  apply (@guard_saves_the_feed_then_restarts Sample.env_malware
           [Sample.malware] (Sample.world_with [Sample.theme_x] []));
    [reflexivity | discriminate].
Defined.

(** X7.  The startup alert check, run on what a guard pass over a fetched,
    non-empty feed left behind, raises the urgent alert exactly when that
    pass forced an uninstall. *)
Theorem alert_follows_a_forced_uninstall
        (env : Env) (critical : list Advisory) (w : World) :
  critical_contents env = RemoteContent (Some critical) ->
  critical <> [] ->
  let after := world_of (Hacs.handle_critical_repositories env w) in
  events_of (Hacs.handle_critical_repositories_startup after) =
    if existsb is_uninstall (events_of (Hacs.handle_critical_repositories env w))
    then [Log Critical (Text "URGENT!: Check the HACS panel!");
          PersistentNotification "URGENT!" "**Check the HACS panel!**"]
    else [].
Proof.
  intros Hf Hne after. subst after.
  destruct (@guard_run_spec env critical Hf Hne w)
    as [recs [_ [Hg [_ [Hw _]]]]].
  cbv zeta in *. rewrite startup_check_run. unfold events_of at 1. simpl.
  rewrite Hw at 1. simpl.
  destruct (guard_run_records Hg) as [_ He]. rewrite He.
  rewrite existsb_filter_forced.
  destruct (existsb is_uninstall
              (events_of (Hacs.handle_critical_repositories env w)));
    reflexivity.
Qed.

Lemma alert_follows_a_forced_uninstall_witness :
  events_of (Hacs.handle_critical_repositories_startup
               (world_of (Hacs.handle_critical_repositories Sample.env_malware
                            (Sample.world_with [Sample.theme_x] [])))) =
    if existsb is_uninstall
         (events_of (Hacs.handle_critical_repositories Sample.env_malware
                       (Sample.world_with [Sample.theme_x] [])))
    then [Log Critical (Text "URGENT!: Check the HACS panel!");
          PersistentNotification "URGENT!" "**Check the HACS panel!**"]
    else [].
Proof.
  apply (@alert_follows_a_forced_uninstall Sample.env_malware
           [Sample.malware] (Sample.world_with [Sample.theme_x] []));
    [reflexivity | discriminate].
Defined.

(** X8.  A second guard pass over the same fetched, non-empty feed marks
    every persisted record acknowledged, also the record of a repository
    the first pass force-uninstalled: the startup alert check run after
    it raises nothing. *)
Theorem second_pass_acknowledges_every_record
        (env1 env2 : Env) (critical : list Advisory) (w w' : World) :
  critical_contents env1 = RemoteContent (Some critical) ->
  critical <> [] ->
  critical_contents env2 = critical_contents env1 ->
  store_critical w' =
    store_critical (world_of (Hacs.handle_critical_repositories env1 w)) ->
  let after := world_of (Hacs.handle_critical_repositories env2 w') in
  (exists recs,
     store_critical after = Some recs /\
     map advisory_of recs = critical /\
     Forall (fun r => st_acknowledged r = true) recs) /\
  events_of (Hacs.handle_critical_repositories_startup after) = [].
Proof.
  intros Hf Hne Hsame Hstore after. subst after.
  rewrite Hf in Hsame.
  destruct (@guard_run_spec env1 critical Hf Hne w)
    as [recs1 [_ [_ [Hn [Hw _]]]]].
  cbv zeta in Hn, Hw. rewrite Hw in Hstore. simpl in Hstore.
  destruct (@guard_run_spec env2 critical Hsame Hne w')
    as [recs [_ [Hg [_ [Hw' _]]]]].
  cbv zeta in Hg, Hw'.
  assert (persisted_names w' = map adv_repository critical) as Hp
      by (unfold persisted_names; now rewrite Hstore, Hn).
  rewrite Hp in Hg.
  destruct (guard_run_records Hg) as [Hrecs _].
  apply guard_run_all_stored in Hg; [|intros b Hb; now apply in_map].
  destruct Hg as [_ [_ Hack]].
  assert (store_critical (world_of (Hacs.handle_critical_repositories env2 w'))
          = Some recs) as Hs by (rewrite Hw'; reflexivity).
  split; [exists recs; auto|].
  rewrite startup_check_run. unfold events_of. simpl. rewrite Hs.
  assert (existsb (fun r => negb (st_acknowledged r)) recs = false) as ->;
    [|reflexivity].
  clear -Hack. induction Hack as [|r l Hr _ IH]; simpl; [reflexivity|].
  now rewrite Hr.
Qed.

Lemma second_pass_acknowledges_every_record_witness :
  let after :=
    world_of (Hacs.handle_critical_repositories Sample.env_malware
                (world_of (Hacs.handle_critical_repositories Sample.env_malware
                             (Sample.world_with [Sample.theme_x] [])))) in
  (exists recs,
     store_critical after = Some recs /\
     map advisory_of recs = [Sample.malware] /\
     Forall (fun r => st_acknowledged r = true) recs) /\
  events_of (Hacs.handle_critical_repositories_startup after) = [].
Proof.
  apply (@second_pass_acknowledges_every_record Sample.env_malware
           Sample.env_malware [Sample.malware]
           (Sample.world_with [Sample.theme_x] [])); try reflexivity.
  discriminate.
Defined.

(** ** Which calls a method makes, and which parts of the world it keeps *)

Section Emits.

Variable allow : Event -> bool.

Lemma emits_ret {A} (a : A) : emits allow (ret a).
Proof. intros w. constructor. Qed.

Lemma emits_raise {A} (e : exn) : emits allow (@raise A e).
Proof. intros w. constructor. Qed.

Lemma emits_get : emits allow get.
Proof. intros w. constructor. Qed.

Lemma emits_modify (f : World -> World) : emits allow (modify f).
Proof. intros w. constructor. Qed.

Lemma emits_emit (e : Event) : allow e = true -> emits allow (emit e).
Proof. intros He w. repeat constructor. exact He. Qed.

Lemma emits_bind {A B} (m : M A) (k : A -> M B) :
  emits allow m -> (forall a, emits allow (k a)) -> emits allow (bind m k).
Proof.
  intros Hm Hk w. specialize (Hm w). rewrite run_bind.
  destruct (m w) as [[[a|e] w1] e1]; unfold observed in *; simpl in *;
    [|exact Hm].
  apply Forall_app_intro; [exact Hm | apply Hk].
Qed.

Lemma emits_try {A} (m h : M A) (handles : exn -> bool) :
  emits allow m -> emits allow h -> emits allow (try_except m handles h).
Proof.
  intros Hm Hh w. specialize (Hm w). unfold try_except.
  destruct (m w) as [[[a|e] w1] e1]; unfold observed in *; simpl in *;
    [exact Hm|].
  destruct (handles e); [|exact Hm].
  specialize (Hh w1). destruct (h w1) as [[r w2] e2]. simpl in *.
  now apply Forall_app_intro.
Qed.

Lemma emits_for_fold {A S} (l : list A) (s : S) (body : A -> S -> M S) :
  (forall x s', emits allow (body x s')) -> emits allow (for_fold l s body).
Proof.
  intros Hb. revert s. induction l as [|x l IH]; intros s; simpl.
  - apply emits_ret.
  - apply emits_bind; [apply Hb | intros s'; apply IH].
Qed.

Lemma emits_for_each {A} (l : list A) (body : A -> M unit) :
  (forall x, emits allow (body x)) -> emits allow (for_each l body).
Proof. intros Hb. apply emits_for_fold. intros x _. apply Hb. Qed.

Lemma emits_when (b : bool) (m : M unit) :
  emits allow m -> emits allow (when b m).
Proof. intros Hm. destruct b; [exact Hm | apply emits_ret]. Qed.

End Emits.

Lemma keeps_refl {B} (f : World -> B) (w : World) : keeps f w w.
Proof. reflexivity. Qed.

Lemma keeps_trans {B} (f : World -> B) (w1 w2 w3 : World) :
  keeps f w1 w2 -> keeps f w2 w3 -> keeps f w1 w3.
Proof. unfold keeps. congruence. Qed.

(** Splits a goal [emits allow m] or [respects (keeps f) m] along the steps
    of [m]; the methods a sweep calls are unfolded first. *)
Ltac unfold_methods :=
  unfold Hacs.startup_tasks, Hacs.recuring_tasks_all,
    Hacs.recuring_tasks_installed, Hacs.load_known_repositories,
    Hacs.get_repositories, Hacs.clear_out_blacklisted_repositories,
    Hacs.blacklist_step, Hacs.handle_critical_repositories,
    Hacs.get_critical, Hacs.critical_step,
    Hacs.handle_critical_repositories_startup, Hacs.factory_execute_batch.

Ltac survey :=
  unfold_methods;
  repeat first
    [ apply emits_bind; [|intro]
    | apply (respects_bind (@keeps_trans _ _)); [|intro]
    | apply emits_for_fold; intros
    | apply emits_for_each; intros
    | apply (respects_for_fold (@keeps_refl _ _) (@keeps_trans _ _)); intros
    | apply (respects_for_each (@keeps_refl _ _) (@keeps_trans _ _)); intros
    | apply emits_when
    | apply (respects_when (@keeps_refl _ _))
    | apply emits_try
    | apply (respects_try (@keeps_trans _ _))
    | apply emits_emit; reflexivity
    | apply emits_modify | apply emits_get | apply emits_ret
    | apply emits_raise
    | apply (respects_emit (@keeps_refl _ _))
    | apply (respects_get (@keeps_refl _ _))
    | apply (respects_ret (@keeps_refl _ _))
    | apply (respects_raise (@keeps_refl _ _))
    | apply respects_modify; intros ?w; reflexivity
    | match goal with
      | |- emits _ (if ?b then _ else _) => destruct b
      | |- emits _ (match ?x with _ => _ end) => destruct x
      | |- respects _ (if ?b then _ else _) => destruct b
      | |- respects _ (match ?x with _ => _ end) => destruct x
      end ].

(** ** The full sweep is harmless *)

(** X9.  The full sweep never uninstalls a repository, never requests a
    restart and never touches the persisted advisories: it makes no such
    call, whatever the registry, the blacklist and the remote lists. *)
Theorem full_sweep_never_uninstalls_nor_restarts (env : Env) (w : World) :
  let run := Hacs.recuring_tasks_all env w in
  count is_uninstall (events_of run) = 0 /\
  count is_restart (events_of run) = 0 /\
  count is_store_save (events_of run) = 0 /\
  store_critical (world_of run) = store_critical w.
Proof.
  assert (emits harmless (Hacs.recuring_tasks_all env)) as He by survey.
  assert (respects (keeps store_critical) (Hacs.recuring_tasks_all env))
    as Hk by survey.
  cbv zeta. specialize (He w). specialize (Hk w). unfold events_of.
  repeat split; try exact Hk;
    apply count_zero, Forall_map; (eapply Forall_impl; [|exact He]);
    intros o Ho; unfold harmless in Ho;
    destruct (is_uninstall (event o)), (is_restart (event o)),
             (is_store_save (event o)); try reflexivity; discriminate.
Qed.

Lemma post_survey {A B} (allow : Event -> bool) (f : World -> B)
      (m : M A) (w : World) (Q : result A -> World -> list Obs -> Prop) :
  emits allow m -> respects (keeps f) m ->
  (forall r w1 e1,
      r = outcome (m w) -> f w1 = f w ->
      Forall (fun o => allow (event o) = true) e1 -> Q r w1 e1) ->
  post m w Q.
Proof. intros He Hk HQ. unfold post. apply HQ; auto. apply Hk. Qed.

Lemma timers_app (l1 l2 : list Event) :
  timers (l1 ++ l2) = timers l1 ++ timers l2.
Proof.
  induction l1 as [|e l IH]; simpl; [reflexivity|].
  destruct e; simpl; rewrite ?IH; reflexivity.
Qed.

Lemma timers_none (l : list Obs) :
  Forall (fun o => no_timer (event o) = true) l -> timers (map event l) = [].
Proof.
  induction 1 as [|o l Ho _ IH]; simpl; [reflexivity|].
  destruct (event o); simpl in *; try exact IH. discriminate.
Qed.

(** ** What the startup sweep schedules *)

(** X10.  The startup sweep arms the two recurring timers, the installed
    sweep every 30 minutes and then the full sweep every 800, once its
    first guard pass is over, and clears [status.startup] and [status.new]
    only when it returns.  If the first guard pass raises, no timer is
    armed at all and the schedule and both marks stay as they were; if
    the installed sweep run at the end raises, the timers are armed but
    both marks stay. *)
Theorem startup_arms_the_timers_after_the_guard
        (env env' : Env) (w : World) :
  let run := Hacs.startup_tasks env env' w in
  let armed := [(InstalledSweep, 30); (FullSweep, 800)] in
  match fetch_outcome env with
  | Raise _ =>
      timers (events_of run) = [] /\ schedule (world_of run) = schedule w
  | Ok _ =>
      timers (events_of run) = armed /\
      recuring_tasks (world_of run) = recuring_tasks w ++ armed /\
      match fetch_outcome env' with
      | Ok _ =>
          status_startup (world_of run) = false /\
          status_new (world_of run) = false
      | Raise _ =>
          status_startup (world_of run) = status_startup w /\
          status_new (world_of run) = status_new w
      end
  end.
Proof.
  cbv zeta. unfold events_of.
  change (post (Hacs.startup_tasks env env') w (fun r w' obs =>
    match fetch_outcome env with
    | Raise _ => timers (map event obs) = [] /\ schedule w' = schedule w
    | Ok _ =>
        timers (map event obs) = [(InstalledSweep, 30); (FullSweep, 800)] /\
        recuring_tasks w' =
          recuring_tasks w ++ [(InstalledSweep, 30); (FullSweep, 800)] /\
        match fetch_outcome env' with
        | Ok _ => status_startup w' = false /\ status_new w' = false
        | Raise _ =>
            status_startup w' = status_startup w /\
            status_new w' = status_new w
        end
    end)).
  unfold Hacs.startup_tasks.
  apply post_bind, post_modify.
  apply post_bind, post_emit.
  apply post_bind, post_emit.
  apply post_bind, post_emit.
  apply post_bind, post_emit.
  apply post_bind.
  apply (@post_survey _ _ no_timer schedule); [survey | survey |].
  intros r1 w1 e1 Hr1 Hw1 He1.
  destruct (total_startup_check (set_background_task true w)) as [[] Ha].
  rewrite Ha in Hr1. subst r1.
  apply post_bind.
  apply (@post_survey _ _ no_timer schedule); [survey | survey |].
  intros r2 w2 e2 Hr2 Hw2 He2. rewrite guard_outcome in Hr2. subst r2.
  destruct (fetch_outcome env) as [[]|e].
  2:{ split.
      - repeat progress
          (simpl; rewrite ?map_app, ?timers_app, ?timers_none by assumption).
        reflexivity.
      - rewrite Hw2, Hw1. reflexivity. }
  apply post_bind.
  apply (@post_survey _ _ no_timer schedule); [survey | survey |].
  intros r3 w3 e3 Hr3 Hw3 He3.
  destruct (total_load_known env w2) as [[] Ha3]. rewrite Ha3 in Hr3.
  subst r3.
  apply post_bind.
  apply (@post_survey _ _ no_timer schedule); [survey | survey |].
  intros r4 w4 e4 Hr4 Hw4 He4.
  destruct (total_enforcer env w3) as [[] Ha4]. rewrite Ha4 in Hr4.
  subst r4.
  apply post_bind, post_emit.
  apply post_bind, post_modify.
  apply post_bind, post_emit.
  apply post_bind, post_modify.
  apply post_bind, post_emit.
  apply post_bind.
  apply (@post_survey _ _ no_timer schedule); [survey | survey |].
  intros r5 w5 e5 Hr5 Hw5 He5. rewrite installed_outcome in Hr5. subst r5.
  assert (schedule w4 = schedule w) as Hs.
  { rewrite Hw4, Hw3, Hw2, Hw1. reflexivity. }
  unfold schedule in Hs, Hw5. simpl in Hw5.
  injection Hs as Hs1 Hs2 Hs3. injection Hw5 as Hw51 Hw52 Hw53.
  destruct (fetch_outcome env') as [[]|e].
  - apply post_bind, post_modify.
    apply post_bind, post_modify.
    apply post_bind, post_modify.
    apply post_bind, post_emit.
    apply post_emit.
    split; [|split; [|split; reflexivity]].
    + repeat progress
        (simpl; rewrite ?map_app, ?timers_app, ?timers_none by assumption).
      reflexivity.
    + simpl. rewrite Hw51, Hs1, <- app_assoc. reflexivity.
  - split; [|split; [|split; congruence]].
    + repeat progress
        (simpl; rewrite ?map_app, ?timers_app, ?timers_none by assumption).
      reflexivity.
    + rewrite Hw51, Hs1, <- app_assoc. reflexivity.
Qed.

(** ** The advisories a startup leaves behind *)

Lemma post_exact {A} (m : M A) (w : World)
      (Q : result A -> World -> list Obs -> Prop) :
  Q (outcome (m w)) (world_of (m w)) (observed (m w)) -> post m w Q.
Proof. auto. Qed.

Lemma all_acknowledged_silent (recs : list Stored) :
  Forall (fun r => st_acknowledged r = true) recs ->
  existsb (fun r => negb (st_acknowledged r)) recs = false.
Proof.
  induction 1 as [|r l Hr _ IH]; simpl; [reflexivity|]. now rewrite Hr.
Qed.

(** A pass over a feed whose names are all persisted already. *)
Lemma guard_pass_over_persisted_feed
      (env : Env) (critical : list Advisory) (w : World) :
  critical_contents env = RemoteContent (Some critical) ->
  critical <> [] ->
  persisted_names w = map adv_repository critical ->
  outcome (Hacs.handle_critical_repositories env w) = Ok tt /\
  exists recs,
    store_critical (world_of (Hacs.handle_critical_repositories env w)) =
      Some recs /\
    map advisory_of recs = critical /\
    Forall (fun r => st_acknowledged r = true) recs.
Proof.
  intros Hf Hne Hp.
  destruct (@guard_run_spec env critical Hf Hne w)
    as [recs [Ho [Hg [_ [Hw _]]]]].
  cbv zeta in *. split; [exact Ho|]. exists recs.
  rewrite Hp in Hg. destruct (guard_run_records Hg) as [Hrecs _].
  apply guard_run_all_stored in Hg; [|intros b Hb; now apply in_map].
  destruct Hg as [_ [_ Hack]].
  repeat split; try assumption. now rewrite Hw.
Qed.

(** The installed sweep ends, as far as the persisted advisories go,
    where its guard pass ends. *)
Lemma installed_store (env : Env) (w : World) :
  exists w1,
    store_critical w1 = store_critical w /\
    outcome (Hacs.recuring_tasks_installed env w) =
      outcome (Hacs.handle_critical_repositories env w1) /\
    store_critical (world_of (Hacs.recuring_tasks_installed env w)) =
      store_critical (world_of (Hacs.handle_critical_repositories env w1)).
Proof.
  change (post (Hacs.recuring_tasks_installed env) w (fun r w' _ =>
    exists w1,
      store_critical w1 = store_critical w /\
      r = outcome (Hacs.handle_critical_repositories env w1) /\
      store_critical w' =
        store_critical (world_of (Hacs.handle_critical_repositories env w1)))).
  unfold Hacs.recuring_tasks_installed.
  apply post_bind, post_emit.
  apply post_bind, post_modify.
  apply post_bind, post_emit.
  apply post_bind, post_emit.
  apply post_bind, post_emit.
  apply post_bind, post_get.
  apply post_bind.
  apply (@post_survey _ _ (fun _ => true) store_critical); [survey|survey|].
  intros r1 w1 e1 Hr1 Hw1 _.
  match type of Hr1 with
  | _ = outcome (?m ?w0) =>
      destruct (@total_task_loop
                  (fun r w => status_installed r
                              && Str.mem (category r) (categories w))
                  SafeUpdate (repositories (set_background_task true w)) w0)
        as [[] Ha]
  end.
  rewrite Ha in Hr1. subst r1.
  apply post_bind.
  apply (@post_survey _ _ (fun _ => true) store_critical); [survey|survey|].
  intros r2 w2 e2 Hr2 Hw2 _.
  destruct (total_factory env w1) as [[] Ha2]. rewrite Ha2 in Hr2. subst r2.
  assert (store_critical w2 = store_critical w) as Hs
      by (rewrite Hw2, Hw1; reflexivity).
  apply post_bind, post_exact.
  destruct (outcome (Hacs.handle_critical_repositories env w2))
    as [[]|e] eqn:Ho.
  - apply post_bind, post_modify.
    apply post_bind, post_emit.
    apply post_bind, post_emit.
    apply post_emit.
    exists w2. rewrite Ho. repeat split; try exact Hs; reflexivity.
  - exists w2. rewrite Ho. repeat split; try exact Hs; reflexivity.
Qed.

(** X11.  A startup sweep whose two guard passes (its own and the one of
    the installed sweep it runs) are answered the same non-empty feed
    returns with every persisted record acknowledged, also the record of
    a repository force-uninstalled during this very startup: the alert
    check of the next startup raises nothing. *)
Theorem startup_leaves_every_record_acknowledged
        (env env' : Env) (critical : list Advisory) (w : World) :
  critical_contents env = RemoteContent (Some critical) ->
  critical <> [] ->
  critical_contents env' = critical_contents env ->
  let run := Hacs.startup_tasks env env' w in
  outcome run = Ok tt /\
  (exists recs,
     store_critical (world_of run) = Some recs /\
     map advisory_of recs = critical /\
     Forall (fun r => st_acknowledged r = true) recs) /\
  events_of (Hacs.handle_critical_repositories_startup (world_of run)) = [].
Proof.
  intros Hf Hne Hsame run. subst run. rewrite Hf in Hsame.
  assert (post (Hacs.startup_tasks env env') w (fun r w' _ =>
            r = Ok tt /\
            exists recs,
              store_critical w' = Some recs /\
              map advisory_of recs = critical /\
              Forall (fun r => st_acknowledged r = true) recs)) as H.
  { unfold Hacs.startup_tasks.
    apply post_bind, post_modify.
    apply post_bind, post_emit.
    apply post_bind, post_emit.
    apply post_bind, post_emit.
    apply post_bind, post_emit.
    apply post_bind.
    apply (@post_survey _ _ (fun _ => true) store_critical); [survey|survey|].
    intros r1 w1 e1 Hr1 _ _.
    destruct (total_startup_check (set_background_task true w)) as [[] Ha].
    rewrite Ha in Hr1. subst r1.
    apply post_bind, post_exact.
    destruct (@guard_run_spec env critical Hf Hne w1)
      as [recs1 [Ho [_ [Hn [Hw _]]]]].
    cbv zeta in Ho, Hn, Hw. rewrite Ho.
    assert (store_critical
              (world_of (Hacs.handle_critical_repositories env w1)) =
            Some recs1) as Hs2 by (rewrite Hw; reflexivity).
    remember (world_of (Hacs.handle_critical_repositories env w1)) as w2.
    clear Heqw2 Hw.
    apply post_bind.
    apply (@post_survey _ _ (fun _ => true) store_critical); [survey|survey|].
    intros r3 w3 e3 Hr3 Hw3 _.
    destruct (total_load_known env w2) as [[] Ha3]. rewrite Ha3 in Hr3.
    subst r3.
    apply post_bind.
    apply (@post_survey _ _ (fun _ => true) store_critical); [survey|survey|].
    intros r4 w4 e4 Hr4 Hw4 _.
    destruct (total_enforcer env w3) as [[] Ha4]. rewrite Ha4 in Hr4.
    subst r4.
    apply post_bind, post_emit.
    apply post_bind, post_modify.
    apply post_bind, post_emit.
    apply post_bind, post_modify.
    apply post_bind, post_emit.
    apply post_bind, post_exact.
    match goal with
    | |- context [Hacs.recuring_tasks_installed env' ?w0] =>
        destruct (installed_store env' w0) as [w5 [Hs5 [Ho5 Hw5]]];
        assert (persisted_names w5 = map adv_repository critical) as Hp
    end.
    { unfold persisted_names. rewrite Hs5. simpl.
      rewrite Hw4, Hw3, Hs2. exact Hn. }
    destruct (@guard_pass_over_persisted_feed env' critical w5 Hsame Hne Hp)
      as [Ho6 [recs [Hs6 [Hm6 Hack]]]].
    rewrite Ho5, Ho6.
    apply post_bind, post_modify.
    apply post_bind, post_modify.
    apply post_bind, post_modify.
    apply post_bind, post_emit.
    apply post_emit.
    split; [reflexivity|]. exists recs.
    cbn [store_critical set_background_task set_status_new
         set_status_startup].
    rewrite Hw5, Hs6. auto. }
  unfold post in H. destruct H as [Ho [recs [Hs [Hm Hack]]]].
  split; [exact Ho|]. split; [exists recs; auto|].
  rewrite startup_check_run. unfold events_of. simpl. rewrite Hs.
  now rewrite (all_acknowledged_silent Hack).
Qed.

Lemma startup_leaves_every_record_acknowledged_witness :
  let run := Hacs.startup_tasks Sample.env_malware Sample.env_malware
               (Sample.world_with [Sample.theme_x] []) in
  outcome run = Ok tt /\
  (exists recs,
     store_critical (world_of run) = Some recs /\
     map advisory_of recs = [Sample.malware] /\
     Forall (fun r => st_acknowledged r = true) recs) /\
  events_of (Hacs.handle_critical_repositories_startup (world_of run)) = [].
Proof.
  apply (@startup_leaves_every_record_acknowledged Sample.env_malware
           Sample.env_malware [Sample.malware]
           (Sample.world_with [Sample.theme_x] [])); try reflexivity.
  discriminate.
Defined.

(** ** Loops in closed form *)

Lemma set_tasks_same (w : World) : set_tasks (tasks w) w = w.
Proof. now destruct w. Qed.

Lemma set_default_same (w : World) : set_default (default w) w = w.
Proof. now destruct w. Qed.

Lemma set_blacklist_same (w : World) : set_blacklist (blacklist w) w = w.
Proof. now destruct w. Qed.

(** The loops of the sweeps that queue one task per selected entry. *)
Lemma task_loop_run (select : Repository -> World -> bool)
      (task : Repository -> Task) (l : list Repository) :
  (forall r ts w, select r (set_tasks ts w) = select r w) ->
  forall w,
    for_each l (fun repository =>
      w <- get ;;
      when (select repository w)
           (modify (fun w => set_tasks (tasks w ++ [task repository]) w))) w =
    (Ok tt,
     set_tasks (tasks w ++ map task (filter (fun r => select r w) l)) w, []).
Proof.
  intros Hsel. unfold for_each.
  induction l as [|x l IH]; intros w; simpl.
  - now rewrite app_nil_r, set_tasks_same.
  - rewrite run_bind. cbv [bind get]. simpl.
    destruct (select x w) eqn:E; simpl;
      unfold outcome, world_of, observed; rewrite IH; simpl.
    + rewrite <- app_assoc. simpl.
      rewrite (filter_ext
                 (fun r => select r (set_tasks (tasks w ++ [task x]) w))
                 (fun r => select r w)) by (intros r; apply Hsel).
      reflexivity.
    + reflexivity.
Qed.

(** Appending the names not yet present: the loop over the merged lists
    of [get_repositories]. *)
Lemma default_loop_run (items : list string) :
  forall w,
    for_each items (fun repo =>
      w <- get ;;
      when (negb (Str.mem repo (default w)))
           (modify (fun w => set_default (default w ++ [repo]) w))) w =
    (Ok tt, set_default (default w ++ added_new (default w) items) w, []).
Proof.
  unfold for_each. induction items as [|x l IH]; intros w; simpl.
  - now rewrite app_nil_r, set_default_same.
  - rewrite run_bind. cbv [bind get]. simpl.
    destruct (Str.mem x (default w)) eqn:E; simpl;
      unfold outcome, world_of, observed; rewrite IH; simpl.
    + reflexivity.
    + now rewrite <- app_assoc.
Qed.

Lemma added_new_app (old l1 l2 : list string) :
  added_new old (l1 ++ l2) =
  added_new old l1 ++ added_new (old ++ added_new old l1) l2.
Proof.
  revert old. induction l1 as [|x l IH]; intros old; simpl.
  - now rewrite app_nil_r.
  - destruct (Str.mem x old); simpl; rewrite IH; [reflexivity|].
    now rewrite <- app_assoc.
Qed.

Lemma default_dict_loop_run (d : dict) :
  forall w,
    for_each d (fun entry =>
      for_each (snd entry) (fun repo =>
        w <- get ;;
        when (negb (Str.mem repo (default w)))
             (modify (fun w => set_default (default w ++ [repo]) w)))) w =
    (Ok tt,
     set_default (default w ++ added_new (default w) (listed_names d)) w, []).
Proof.
  unfold listed_names.
  induction d as [|entry d IH]; intros w.
  - simpl. now rewrite app_nil_r, set_default_same.
  - unfold for_each at 1. simpl for_fold. rewrite run_bind.
    rewrite default_loop_run. cbn [outcome world_of observed fst snd].
    fold (for_each d (fun entry0 =>
      for_each (snd entry0) (fun repo =>
        w0 <- get ;;
        when (negb (Str.mem repo (default w0)))
             (modify (fun w1 => set_default (default w1 ++ [repo]) w1))))).
    rewrite IH. simpl. rewrite added_new_app, app_assoc. reflexivity.
Qed.

(** The loop that merges the blacklist feed. *)
Lemma blacklist_feed_loop_run (items : list string) :
  forall w,
    for_each items (fun item =>
      w <- get ;;
      when (negb (Str.mem item (blacklist w)))
           (emit (RemovedType item "blacklist") ;;
            modify (fun w => set_blacklist (blacklist w ++ [item]) w))) w =
    (Ok tt,
     set_blacklist (blacklist w ++ added_new (blacklist w) items) w,
     stamp w (map (fun item => RemovedType item "blacklist")
                  (added_new (blacklist w) items))).
Proof.
  unfold for_each. induction items as [|x l IH]; intros w; simpl.
  - now rewrite app_nil_r, set_blacklist_same.
  - rewrite run_bind. cbv [bind get emit modify]. simpl.
    destruct (Str.mem x (blacklist w)) eqn:E; simpl;
      unfold outcome, world_of, observed; rewrite IH; simpl.
    + reflexivity.
    + now rewrite <- app_assoc.
Qed.

(** The loop that queues the registrations. *)
Lemma register_loop_run (d : dict) :
  forall w,
    for_each d (fun entry =>
      for_each (snd entry) (fun repo =>
        w <- get ;;
        if Str.mem repo (blacklist w) then ret tt
        else if Registry.is_known (repositories w) repo then ret tt
        else modify (fun w =>
               set_tasks (tasks w ++ [SafeRegister repo (fst entry)]) w))) w =
    (Ok tt,
     set_tasks (tasks w ++ registrations (blacklist w) (repositories w) d) w,
     []).
Proof.
  assert (forall cat items w,
    for_each items (fun repo =>
        w <- get ;;
        if Str.mem repo (blacklist w) then ret tt
        else if Registry.is_known (repositories w) repo then ret tt
        else modify (fun w =>
               set_tasks (tasks w ++ [SafeRegister repo cat]) w)) w =
    (Ok tt,
     set_tasks (tasks w ++
                map (fun repo => SafeRegister repo cat)
                    (filter (fun repo =>
                               negb (Str.mem repo (blacklist w))
                               && negb (Registry.is_known (repositories w) repo))
                            items)) w, [])) as Hinner.
  { intros cat items. unfold for_each.
    induction items as [|x l IH]; intros w; simpl.
    - now rewrite app_nil_r, set_tasks_same.
    - rewrite run_bind. cbv [bind get]. simpl.
      destruct (Str.mem x (blacklist w)) eqn:E; simpl;
        [unfold outcome, world_of, observed; rewrite IH; reflexivity|].
      destruct (Registry.is_known (repositories w) x) eqn:K; simpl;
        unfold outcome, world_of, observed; rewrite IH; simpl;
        [reflexivity|].
      now rewrite <- app_assoc. }
  unfold registrations.
  induction d as [|entry d IH]; intros w.
  - simpl. now rewrite app_nil_r, set_tasks_same.
  - unfold for_each at 1. simpl for_fold. rewrite run_bind.
    rewrite Hinner. cbn [outcome world_of observed fst snd].
    fold (for_each d (fun entry0 =>
      for_each (snd entry0) (fun repo =>
        w0 <- get ;;
        if Str.mem repo (blacklist w0) then ret tt
        else if Registry.is_known (repositories w0) repo then ret tt
        else modify (fun w1 =>
               set_tasks (tasks w1 ++ [SafeRegister repo (fst entry0)]) w1)))).
    rewrite IH. simpl. rewrite app_assoc. reflexivity.
Qed.

(** ** Known-repository loading in closed form *)

Lemma get_repositories_run (env : Env) (w : World) :
  Hacs.get_repositories env w =
  (Ok (listing env (categories w)),
   set_default
     (default w ++
      added_new (default w) (listed_names (listing env (categories w)))) w,
   []).
Proof.
  unfold Hacs.get_repositories. rewrite run_bind.
  cbn [get outcome world_of observed fst snd app]. rewrite run_bind.
  change (fold_left
            (fun d category =>
               dict_set category
                 (default_repos_lists env category
                    ++ default_repos_orgs env category) d)
            (categories w) [])
    with (listing env (categories w)).
  rewrite default_dict_loop_run. reflexivity.
Qed.

Lemma load_known_run (env : Env) (w : World) :
  let d := listing env (categories w) in
  let added := added_new (blacklist w) (default_repos_lists env "blacklist") in
  let batch :=
    tasks w ++ registrations (blacklist w ++ added) (repositories w) d in
  Hacs.load_known_repositories env w =
  (Ok tt,
   set_tasks []
     (set_repositories (factory_execute env batch (repositories w))
        (set_blacklist (blacklist w ++ added)
           (set_default
              (default w ++ added_new (default w) (listed_names d)) w))),
   stamp w
     (Log Info (Text "Loading known repositories")
      :: map (fun item => RemovedType item "blacklist") added
      ++ [FactoryExecute batch;
          Log Info (Text "Loading known repositories finished")])).
Proof.
  cbv zeta. unfold Hacs.load_known_repositories.
  rewrite run_bind. cbn [emit outcome world_of observed fst snd].
  rewrite run_bind, get_repositories_run.
  cbn [outcome world_of observed fst snd].
  rewrite run_bind, blacklist_feed_loop_run.
  cbn [outcome world_of observed fst snd].
  rewrite run_bind, register_loop_run.
  cbn [outcome world_of observed fst snd].
  unfold Hacs.factory_execute_batch.
  cbv [bind get emit modify]. simpl. unfold stamp.
  rewrite map_app. unfold outcome, world_of, observed. simpl.
  rewrite ?app_nil_r. reflexivity.
Qed.

(** ** What a membership-tested append adds *)

Lemma added_new_in (old items : list string) (x : string) :
  In x (added_new old items) <-> In x items /\ ~ In x old.
Proof.
  revert old. induction items as [|y l IH]; intros old; simpl.
  - tauto.
  - destruct (Str.mem y old) eqn:E.
    + apply mem_In in E. rewrite IH. split.
      * intros [H1 H2]. auto.
      * intros [[<-|H1] H2]; [contradiction | auto].
    + apply mem_false in E. simpl. rewrite IH. split.
      * intros [<-|[H1 H2]]; [auto|]. split; [auto|].
        intros H. apply H2. apply in_or_app. now left.
      * intros [[<-|H1] H2]; [now left|].
        destruct (string_dec y x) as [<-|Hn]; [now left|].
        right. split; [exact H1|]. intros H. apply in_app_or in H.
        destruct H as [H|[H|[]]]; auto.
Qed.

Lemma added_new_nodup (old items : list string) : NoDup (added_new old items).
Proof.
  revert old. induction items as [|y l IH]; intros old; simpl.
  - constructor.
  - destruct (Str.mem y old); [apply IH|].
    constructor; [|apply IH].
    intros H. apply added_new_in in H. destruct H as [_ H]. apply H.
    apply in_or_app. right. now left.
Qed.

Lemma added_new_keeps_nodup (old items : list string) :
  NoDup old -> NoDup (old ++ added_new old items).
Proof.
  intros Hn. apply NoDup_app; [exact Hn | apply added_new_nodup |].
  intros x Hx Ha. apply added_new_in in Ha. now destruct Ha.
Qed.

(** ** The dict of [get_repositories] *)

Lemma dict_set_in (k : string) (v : list string) (d : dict)
      (c : string) (x : list string) :
  In (c, x) (dict_set k v d) -> (c, x) = (k, v) \/ In (c, x) d.
Proof.
  induction d as [|[k' v'] d IH]; simpl.
  - intros [H|[]]. left. now symmetry.
  - destruct (String.eqb_spec k' k) as [->|Hn]; simpl.
    + intros [H|H]; [left; now symmetry | right; now right].
    + intros [H|H]; [right; now left|].
      destruct (IH H); [now left | right; now right].
Qed.

Lemma dict_set_has (k : string) (v : list string) (d : dict) :
  In (k, v) (dict_set k v d).
Proof.
  induction d as [|[k' v'] d IH]; simpl; [now left|].
  destruct (String.eqb_spec k' k) as [->|Hn]; simpl; [now left | now right].
Qed.

Lemma dict_set_other (k : string) (v : list string) (d : dict)
      (c : string) (x : list string) :
  c <> k -> In (c, x) d -> In (c, x) (dict_set k v d).
Proof.
  intros Hc. induction d as [|[k' v'] d IH]; simpl; [tauto|].
  destruct (String.eqb_spec k' k) as [->|Hn]; simpl.
  - intros [[= -> ->]|H]; [contradiction | now right].
  - intros [H|H]; [now left | right; auto].
Qed.

Lemma dict_set_keys (k : string) (v : list string) (d : dict) :
  map fst (dict_set k v d) =
  if Str.mem k (map fst d) then map fst d else map fst d ++ [k].
Proof.
  induction d as [|[k' v'] d IH]; simpl; [reflexivity|].
  rewrite (String.eqb_sym k k').
  destruct (String.eqb_spec k' k) as [->|Hn]; simpl; [reflexivity|].
  rewrite IH. fold (Str.mem k (map fst d)).
  now destruct (Str.mem k (map fst d)).
Qed.

Lemma listing_spec (env : Env) (cats : list string) :
  (forall c x, In (c, x) (listing env cats) <->
               In c cats /\ x = listed_for env c) /\
  NoDup (map fst (listing env cats)).
Proof.
  unfold listing.
  assert (forall cats d seen,
    ((forall c x, In (c, x) d <-> In c seen /\ x = listed_for env c) /\
     NoDup (map fst d)) ->
    (forall c x,
       In (c, x)
          (fold_left
             (fun d category => dict_set category (listed_for env category) d)
             cats d) <->
       In c (seen ++ cats) /\ x = listed_for env c) /\
    NoDup (map fst
             (fold_left
                (fun d category =>
                   dict_set category (listed_for env category) d)
                cats d))) as H.
  { clear cats. induction cats as [|k l IH]; intros d seen [Hd Hn]; simpl.
    - rewrite app_nil_r. now split.
    - replace (seen ++ k :: l) with ((seen ++ [k]) ++ l)
        by (now rewrite <- app_assoc).
      apply IH. split.
      + intros c x. split.
        * intros Hin. apply dict_set_in in Hin.
          destruct Hin as [[= -> ->]|Hin].
          -- split; [apply in_or_app; right; now left | reflexivity].
          -- apply Hd in Hin. destruct Hin as [Hs Hx].
             split; [apply in_or_app; now left | exact Hx].
        * intros [Hc ->]. destruct (string_dec c k) as [->|Hck].
          -- apply dict_set_has.
          -- apply dict_set_other; [exact Hck|]. apply Hd.
             apply in_app_or in Hc.
             destruct Hc as [Hc|[Hc|[]]]; [auto | congruence].
      + rewrite dict_set_keys.
        destruct (Str.mem k (map fst d)) eqn:E; [exact Hn|].
        apply mem_false in E.
        apply NoDup_app; [exact Hn | repeat constructor; intros [] |].
        intros y Hy [<-|[]]. contradiction. }
  apply (H cats [] []). split; [|constructor].
  intros c x. simpl. tauto.
Qed.

Lemma listed_names_in (env : Env) (cats : list string) (name : string) :
  In name (listed_names (listing env cats)) <->
  exists cat, In cat cats /\ In name (listed_for env cat).
Proof.
  unfold listed_names. rewrite in_flat_map. split.
  - intros [[c x] [Hin Hn]]. apply (proj1 (listing_spec env cats)) in Hin.
    destruct Hin as [Hc ->]. exists c. auto.
  - intros [cat [Hc Hn]]. exists (cat, listed_for env cat). split; [|exact Hn].
    apply (proj1 (listing_spec env cats)). auto.
Qed.

Lemma events_stamp (w : World) (l : list Event) : map event (stamp w l) = l.
Proof. unfold stamp. rewrite map_map. apply map_id. Qed.

Lemma batches_app (l1 l2 : list Event) :
  batches (l1 ++ l2) = batches l1 ++ batches l2.
Proof.
  induction l1 as [|e l IH]; simpl; [reflexivity|].
  destruct e; simpl; rewrite ?IH; reflexivity.
Qed.

Lemma batches_none (l : list Event) :
  Forall (fun e => no_batch e = true) l -> batches l = [].
Proof.
  induction 1 as [|e l He _ IH]; simpl; [reflexivity|].
  destruct e; simpl in *; try exact IH. discriminate.
Qed.

Lemma registrations_in (blacklisted : list string) (regs : list Repository)
      (d : dict) (t : Task) :
  In t (registrations blacklisted regs d) <->
  exists cat items repo,
    In (cat, items) d /\ In repo items /\ t = SafeRegister repo cat /\
    ~ In repo blacklisted /\ Registry.is_known regs repo = false.
Proof.
  unfold registrations. rewrite in_flat_map. split.
  - intros [[cat items] [Hd Ht]]. simpl in Ht. apply in_map_iff in Ht.
    destruct Ht as [repo [<- Hf]]. apply filter_In in Hf.
    destruct Hf as [Hi Hc]. apply andb_true_iff in Hc.
    destruct Hc as [H1 H2]. apply negb_true_iff in H1, H2.
    apply mem_false in H1. exists cat, items, repo. auto.
  - intros [cat [items [repo [Hd [Hi [-> [Hb Hk]]]]]]].
    exists (cat, items). split; [exact Hd|]. simpl. apply in_map_iff.
    exists repo. split; [reflexivity|]. apply filter_In. split; [exact Hi|].
    apply mem_false in Hb. now rewrite Hb, Hk.
Qed.

(** ** Known-repository loading *)

(** X12.  [load_known_repositories] hands the task factory one batch:
    what was queued already, followed by registrations only.  A name is
    queued for registration under a category exactly when the category is
    active, the default lists or organisations of that category list the
    name, the name is not on the blacklist as merged with the feed, and no
    registered repository has that name up to letter case. *)
Theorem load_known_registers_what_is_new_and_allowed
        (env : Env) (w : World) :
  let run := Hacs.load_known_repositories env w in
  exists new,
    batches (events_of run) = [tasks w ++ new] /\
    (forall t, In t new -> exists repo cat, t = SafeRegister repo cat) /\
    forall repo cat,
      In (SafeRegister repo cat) new <->
      In cat (categories w) /\ In repo (listed_for env cat) /\
      ~ In repo (blacklist (world_of run)) /\
      Registry.is_known (repositories w) repo = false.
Proof.
  cbv zeta. rewrite load_known_run. cbv zeta.
  unfold events_of, observed, world_of. cbn [fst snd].
  rewrite events_stamp.
  exists (registrations
            (blacklist w ++
             added_new (blacklist w) (default_repos_lists env "blacklist"))
            (repositories w) (listing env (categories w))).
  split; [|split].
  - simpl. rewrite batches_app, batches_none; [reflexivity|].
    apply Forall_map. apply Forall_forall. reflexivity.
  - intros t Ht. apply registrations_in in Ht.
    destruct Ht as [cat [items [repo [_ [_ [-> _]]]]]]. eauto.
  - intros repo cat. rewrite registrations_in. simpl. split.
    + intros [cat' [items [repo' [Hd [Hi [[= -> ->] [Hb Hk]]]]]]].
      apply (proj1 (listing_spec env (categories w))) in Hd.
      destruct Hd as [Hc ->]. auto.
    + intros [Hc [Hi [Hb Hk]]].
      exists cat, (listed_for env cat), repo.
      repeat split; try assumption.
      apply (proj1 (listing_spec env (categories w))). auto.
Qed.

(** X13.  [load_known_repositories] merges the blacklist feed into the
    blacklist: it appends, once each and in feed order, exactly the feed's
    names that were not on the blacklist, keeps the names that were, and
    marks as removed with type [blacklist] exactly the names it appends
    (a name already there, such as one the guard put there, is not
    re-marked); a blacklist without duplicates stays so. *)
Theorem load_known_merges_the_blacklist_feed (env : Env) (w : World) :
  let run := Hacs.load_known_repositories env w in
  exists added,
    blacklist (world_of run) = blacklist w ++ added /\
    NoDup added /\
    (forall name,
       In name added <->
       In name (default_repos_lists env "blacklist") /\
       ~ In name (blacklist w)) /\
    (forall name t,
       In (RemovedType name t) (events_of run) <->
       t = "blacklist" /\ In name added) /\
    (NoDup (blacklist w) -> NoDup (blacklist (world_of run))).
Proof.
  cbv zeta. rewrite load_known_run. cbv zeta.
  unfold events_of, observed, world_of. cbn [fst snd].
  rewrite events_stamp.
  exists (added_new (blacklist w) (default_repos_lists env "blacklist")).
  split; [reflexivity|]. split; [apply added_new_nodup|].
  split; [intros name; apply added_new_in|]. split.
  - intros name t. split.
    + intros [H|H]; [discriminate|]. apply in_app_or in H.
      destruct H as [H|[H|[H|[]]]]; try discriminate.
      apply in_map_iff in H. destruct H as [item [[= -> <-] Hi]]. auto.
    + intros [-> Hn]. right. apply in_or_app. left.
      apply in_map_iff. exists name. auto.
  - simpl. apply added_new_keeps_nodup.
Qed.

(** X14.  [get_repositories] returns one entry per active category, each
    category once, holding the default list of the category followed by
    its organisation list; it appends to [common.default], once each, the
    listed names that were not there, and does nothing else: no call, no
    other change. *)
Theorem get_repositories_lists_each_category_once (env : Env) (w : World) :
  let run := Hacs.get_repositories env w in
  exists d added,
    run = (Ok d, set_default (default w ++ added) w, []) /\
    (forall cat items,
       In (cat, items) d <->
       In cat (categories w) /\
       items = default_repos_lists env cat ++ default_repos_orgs env cat) /\
    NoDup (map fst d) /\
    NoDup added /\
    (forall name,
       In name added <->
       (exists cat, In cat (categories w) /\
                    In name (default_repos_lists env cat
                               ++ default_repos_orgs env cat)) /\
       ~ In name (default w)).
Proof.
  cbv zeta. rewrite get_repositories_run.
  exists (listing env (categories w)),
         (added_new (default w) (listed_names (listing env (categories w)))).
  split; [reflexivity|].
  split; [apply (proj1 (listing_spec env (categories w)))|].
  split; [apply (proj2 (listing_spec env (categories w)))|].
  split; [apply added_new_nodup|].
  intros name. rewrite added_new_in, listed_names_in. reflexivity.
Qed.

(** ** What the sweeps hand to the task factory *)

Lemma post_run {A} (m : M A) (w : World) (r : result A) (w1 : World)
      (e1 : list Obs) (Q : result A -> World -> list Obs -> Prop) :
  m w = (r, w1, e1) -> Q r w1 e1 -> post m w Q.
Proof. intros H HQ. unfold post. now rewrite H. Qed.

Lemma batches_obs_none (l : list Obs) :
  Forall (fun o => no_batch (event o) = true) l -> batches (map event l) = [].
Proof. intros H. apply batches_none. now apply Forall_map. Qed.

(** X15.  The installed sweep hands the task factory exactly one batch:
    what was queued already, followed by one update per repository that
    is installed and whose category is active, in registry order.  The
    full sweep hands it two batches, the first being what was queued
    already followed by one common update per repository whose category is
    active, installed or not, in registry order. *)
Theorem sweeps_queue_updates_for_active_categories (env : Env) (w : World) :
  batches (events_of (Hacs.recuring_tasks_installed env w)) =
    [tasks w ++
     map SafeUpdate
         (filter (fun r => status_installed r
                           && Str.mem (category r) (categories w))
                 (repositories w))] /\
  exists second,
    batches (events_of (Hacs.recuring_tasks_all env w)) =
      [tasks w ++
       map SafeCommonUpdate
           (filter (fun r => Str.mem (category r) (categories w))
                   (repositories w));
       second].
Proof.
  split.
  - unfold events_of.
    change (post (Hacs.recuring_tasks_installed env) w (fun _ _ obs =>
      batches (map event obs) =
        [tasks w ++
         map SafeUpdate
             (filter (fun r => status_installed r
                               && Str.mem (category r) (categories w))
                     (repositories w))])).
    unfold Hacs.recuring_tasks_installed.
    apply post_bind, post_emit.
    apply post_bind, post_modify.
    apply post_bind, post_emit.
    apply post_bind, post_emit.
    apply post_bind, post_emit.
    apply post_bind, post_get.
    apply post_bind.
    eapply post_run.
    { apply (task_loop_run
               (fun r w => status_installed r
                           && Str.mem (category r) (categories w))
               SafeUpdate). reflexivity. }
    unfold Hacs.factory_execute_batch.
    apply post_bind, post_bind, post_get.
    apply post_bind, post_emit. apply post_modify.
    apply post_bind.
    apply (@post_survey _ _ no_batch (fun _ => tt)); [survey | survey |].
    intros r w1 e1 _ _ He1.
    destruct r as [[]|e].
    + apply post_bind, post_modify.
      apply post_bind, post_emit.
      apply post_bind, post_emit.
      apply post_emit.
      simpl. rewrite !map_app, !batches_app, (batches_obs_none He1).
      reflexivity.
    + simpl. rewrite (batches_obs_none He1). reflexivity.
  - unfold events_of.
    change (post (Hacs.recuring_tasks_all env) w (fun _ _ obs =>
      exists second,
        batches (map event obs) =
          [tasks w ++
           map SafeCommonUpdate
               (filter (fun r => Str.mem (category r) (categories w))
                       (repositories w));
           second])).
    unfold Hacs.recuring_tasks_all.
    apply post_bind, post_emit.
    apply post_bind, post_emit.
    apply post_bind, post_modify.
    apply post_bind, post_emit.
    apply post_bind, post_emit.
    apply post_bind, post_emit.
    apply post_bind, post_get.
    apply post_bind.
    eapply post_run.
    { apply (task_loop_run
               (fun r w => Str.mem (category r) (categories w))
               SafeCommonUpdate). reflexivity. }
    unfold Hacs.factory_execute_batch at 1.
    apply post_bind, post_bind, post_get.
    apply post_bind, post_emit. apply post_modify.
    apply post_bind.
    eapply post_run; [apply load_known_run|].
    apply post_bind.
    apply (@post_survey _ _ no_batch (fun _ => tt)); [survey | survey |].
    intros r w1 e1 Hr _ He1.
    match type of Hr with
    | _ = outcome (_ ?w0) => destruct (total_enforcer env w0) as [[] Ha]
    end.
    rewrite Ha in Hr. subst r.
    apply post_bind, post_modify.
    apply post_bind, post_emit.
    apply post_bind, post_emit.
    apply post_bind, post_emit.
    apply post_emit.
    eexists. simpl. rewrite !map_app, !batches_app, events_stamp.
    simpl. rewrite !batches_app, (batches_obs_none He1).
    rewrite batches_none;
      [|apply Forall_map; apply Forall_forall; reflexivity].
    simpl. reflexivity.
Qed.

(** ** The enforcer among installed repositories *)

Lemma enforcer_run_keeps_installed (env : Env)
      (regs regs' : list Repository) (names : list string)
      (evs : list Event) :
  (forall name r, In name names ->
                  Registry.get_by_name regs name = Some r ->
                  status_installed r = true) ->
  Spec.EnforcerRun env regs names evs regs' ->
  regs' = regs /\ existsb is_remove evs = false.
Proof.
  intros Hall Hr.
  induction Hr as [regs|regs name rest evs regs' _ _ IH
                   |regs name rest r evs regs' _ _ _ _ IH
                   |regs name rest r evs regs' _ G Hi _ _].
  - auto.
  - apply IH. intros n r Hn. apply Hall. now right.
  - simpl. apply IH. intros n r' Hn. apply Hall. now right.
  - exfalso. rewrite (Hall name r (or_introl eq_refl) G) in Hi. discriminate.
Qed.

(** X16.  When every blacklisted name that matches a registered
    repository matches an installed one, the enforcer changes nothing: it
    unregisters nothing, writes nothing, and leaves the world exactly as
    it was (it only warns). *)
Theorem enforcer_only_warns_about_installed (env : Env) (w : World) :
  (forall name r,
      In name (blacklist w) ->
      Registry.get_by_name (repositories w) name = Some r ->
      status_installed r = true) ->
  let run := Hacs.clear_out_blacklisted_repositories env w in
  outcome run = Ok tt /\
  world_of run = w /\
  count is_remove (events_of run) = 0 /\
  count is_write (events_of run) = 0 /\
  forall e, In e (events_of run) -> exists m, e = Log Warning m.
Proof.
  intros Hall run. subst run.
  destruct (enforcer_run_spec env w) as [evs [Ho [Hr [He [Hc Hw]]]]].
  cbv zeta in *.
  destruct (enforcer_run_keeps_installed Hall Hr) as [Hregs Hnone].
  rewrite Hnone, app_nil_r in He.
  split; [exact Ho|]. split.
  - rewrite Hw, Hregs. now destruct w.
  - rewrite He in *. rewrite Hnone in Hc.
    split; [|split; [exact Hc|]].
    + unfold count. clear -Hnone.
      induction evs as [|e l IH]; simpl in *; [reflexivity|].
      apply orb_false_iff in Hnone. destruct Hnone as [H1 H2].
      rewrite H1. auto.
    + clear -Hr Hnone. intros e Hin.
      induction Hr as [regs|regs name rest evs regs' _ _ IH
                       |regs name rest r evs regs' _ _ _ _ IH
                       |regs name rest r evs regs' _ _ _ _ _];
        simpl in *.
      * destruct Hin.
      * auto.
      * destruct Hin as [<-|Hin]; [eauto | auto].
      * discriminate.
Qed.

Lemma enforcer_only_warns_about_installed_witness :
  let run := Hacs.clear_out_blacklisted_repositories Sample.env_quiet
               (Sample.world_with [Sample.theme_x] ["Alice/Theme-X"]) in
  outcome run = Ok tt /\
  world_of run = Sample.world_with [Sample.theme_x] ["Alice/Theme-X"] /\
  count is_remove (events_of run) = 0 /\
  count is_write (events_of run) = 0 /\
  forall e, In e (events_of run) -> exists m, e = Log Warning m.
Proof.
  apply (@enforcer_only_warns_about_installed Sample.env_quiet
           (Sample.world_with [Sample.theme_x] ["Alice/Theme-X"])).
  intros name r [<-|[]] H. vm_compute in H. now injection H as <-.
Defined.

(** ** Restarts across a startup *)

Lemma guard_restarts_at_most_once (env : Env) (w : World) :
  count is_restart (events_of (Hacs.handle_critical_repositories env w)) <= 1.
Proof.
  destruct (critical_contents env) as [e|[[|a l]|]] eqn:E.
  - rewrite guard_run, E. destruct (is_AIOGitHubException e); cbn; lia.
  - rewrite guard_run, E. cbn. lia.
  - assert (a :: l <> []) as Hne by discriminate.
    destruct (@guard_run_spec env (a :: l) E Hne w)
      as [recs [_ [_ [_ [_ [_ Hc]]]]]].
    cbv zeta in Hc. rewrite Hc.
    destruct (existsb is_uninstall _); lia.
  - rewrite guard_run, E. cbn. lia.
Qed.

(** A pass that finds persisted what an earlier pass over the same feed
    left requests no restart. *)
Lemma guard_pass_after_pass_restarts_nothing
      (env1 env2 : Env) (w w' : World) :
  critical_contents env2 = critical_contents env1 ->
  store_critical w' =
    store_critical (world_of (Hacs.handle_critical_repositories env1 w)) ->
  count is_restart (events_of (Hacs.handle_critical_repositories env2 w')) = 0.
Proof.
  intros Hfeed Hstore.
  destruct (critical_contents env1) as [e|[[|a l]|]] eqn:E1.
  - rewrite guard_run, Hfeed. now destruct (is_AIOGitHubException e).
  - rewrite guard_run, Hfeed. reflexivity.
  - assert (a :: l <> []) as Hne by discriminate.
    destruct (@guard_run_spec env1 (a :: l) E1 Hne w)
      as [recs [_ [_ [Hn [Hw _]]]]].
    cbv zeta in Hn, Hw. rewrite Hw in Hstore. simpl in Hstore.
    destruct (@guard_run_spec env2 (a :: l) Hfeed Hne w')
      as [recs' [_ [Hg [_ [_ [_ Hc]]]]]].
    cbv zeta in Hg, Hc.
    assert (persisted_names w' = map adv_repository (a :: l)) as Hp
        by (unfold persisted_names; now rewrite Hstore, Hn).
    rewrite Hp in Hg.
    apply guard_run_all_stored in Hg; [|intros b Hb; now apply in_map].
    destruct Hg as [Hnone _].
    rewrite Hc, <- existsb_filter_forced, Hnone. reflexivity.
  - rewrite guard_run, Hfeed. reflexivity.
Qed.

Lemma restarts_none (l : list Obs) :
  Forall (fun o => no_restart (event o) = true) l ->
  count is_restart (map event l) = 0.
Proof.
  intros H. apply count_zero, Forall_map.
  eapply Forall_impl; [|exact H]. intros o Ho. unfold no_restart in Ho.
  now destruct (is_restart (event o)).
Qed.

Lemma count_cons (p : Event -> bool) (e : Event) (l : list Event) :
  count p (e :: l) = (if p e then 1 else 0) + count p l.
Proof. unfold count. simpl. now destruct (p e). Qed.

Lemma count_nil (p : Event -> bool) : count p [] = 0.
Proof. reflexivity. Qed.

(** Counts the restarts of a run given piece by piece. *)
Ltac tally :=
  unfold observed in *;
  repeat progress
    (cbn [map event app];
     rewrite ?map_app, ?count_app, ?count_cons, ?count_nil);
  cbn [is_restart];
  repeat match goal with
         | H : Forall (fun o => no_restart (event o) = true) ?l |- _ =>
             rewrite (restarts_none H)
         end;
  try lia.

(** The installed sweep requests the restarts of its guard pass, and no
    other. *)
Lemma installed_restarts (env : Env) (w : World) :
  exists w1,
    store_critical w1 = store_critical w /\
    count is_restart (events_of (Hacs.recuring_tasks_installed env w)) =
    count is_restart (events_of (Hacs.handle_critical_repositories env w1)).
Proof.
  unfold events_of at 1.
  change (post (Hacs.recuring_tasks_installed env) w (fun _ _ obs =>
    exists w1,
      store_critical w1 = store_critical w /\
      count is_restart (map event obs) =
      count is_restart
        (events_of (Hacs.handle_critical_repositories env w1)))).
  unfold Hacs.recuring_tasks_installed.
  apply post_bind, post_emit.
  apply post_bind, post_modify.
  apply post_bind, post_emit.
  apply post_bind, post_emit.
  apply post_bind, post_emit.
  apply post_bind, post_get.
  apply post_bind.
  apply (@post_survey _ _ no_restart store_critical); [survey|survey|].
  intros r1 w1 e1 Hr1 Hw1 He1.
  match type of Hr1 with
  | _ = outcome (?m ?w0) =>
      destruct (@total_task_loop
                  (fun r w => status_installed r
                              && Str.mem (category r) (categories w))
                  SafeUpdate (repositories (set_background_task true w)) w0)
        as [[] Ha]
  end.
  rewrite Ha in Hr1. subst r1.
  apply post_bind.
  apply (@post_survey _ _ no_restart store_critical); [survey|survey|].
  intros r2 w2 e2 Hr2 Hw2 He2.
  destruct (total_factory env w1) as [[] Ha2]. rewrite Ha2 in Hr2. subst r2.
  assert (store_critical w2 = store_critical w) as Hs
      by (rewrite Hw2, Hw1; reflexivity).
  apply post_bind, post_exact.
  destruct (outcome (Hacs.handle_critical_repositories env w2)) as [[]|e].
  - apply post_bind, post_modify.
    apply post_bind, post_emit.
    apply post_bind, post_emit.
    apply post_emit.
    exists w2. split; [exact Hs|]. unfold events_of. tally.
  - exists w2. split; [exact Hs|]. unfold events_of. tally.
Qed.

(** X17.  A startup sweep runs the guard twice, once itself and once in
    the installed sweep it ends with; when both passes are answered the
    same critical list it requests the restart at most once, and only
    from its first pass. *)
Theorem startup_requests_at_most_one_restart
        (env env' : Env) (w : World) :
  critical_contents env' = critical_contents env ->
  count is_restart (events_of (Hacs.startup_tasks env env' w)) <= 1.
Proof.
  intros Hsame. unfold events_of.
  change (post (Hacs.startup_tasks env env') w (fun _ _ obs =>
            count is_restart (map event obs) <= 1)).
  unfold Hacs.startup_tasks.
  apply post_bind, post_modify.
  apply post_bind, post_emit.
  apply post_bind, post_emit.
  apply post_bind, post_emit.
  apply post_bind, post_emit.
  apply post_bind.
  apply (@post_survey _ _ no_restart store_critical); [survey|survey|].
  intros r1 w1 e1 Hr1 _ He1.
  destruct (total_startup_check (set_background_task true w)) as [[] Ha].
  rewrite Ha in Hr1. subst r1.
  apply post_bind, post_exact.
  pose proof (guard_restarts_at_most_once env w1) as Hfirst.
  unfold events_of in Hfirst.
  destruct (outcome (Hacs.handle_critical_repositories env w1)) as [[]|e].
  2:{ tally. }
  apply post_bind.
  apply (@post_survey _ _ no_restart store_critical); [survey|survey|].
  intros r3 w3 e3 Hr3 Hw3 He3.
  match type of Hr3 with
  | _ = outcome (_ ?w0) => destruct (total_load_known env w0) as [[] Ha3]
  end.
  rewrite Ha3 in Hr3. subst r3.
  apply post_bind.
  apply (@post_survey _ _ no_restart store_critical); [survey|survey|].
  intros r4 w4 e4 Hr4 Hw4 He4.
  destruct (total_enforcer env w3) as [[] Ha4]. rewrite Ha4 in Hr4.
  subst r4.
  apply post_bind, post_emit.
  apply post_bind, post_modify.
  apply post_bind, post_emit.
  apply post_bind, post_modify.
  apply post_bind, post_emit.
  apply post_bind, post_exact.
  match goal with
  | |- context [Hacs.recuring_tasks_installed env' ?w0] =>
      destruct (installed_restarts env' w0) as [w5 [Hs5 Hc5]];
      remember (Hacs.recuring_tasks_installed env' w0) as inner
  end.
  assert (count is_restart
            (events_of (Hacs.handle_critical_repositories env' w5)) = 0)
    as Hzero.
  { apply (@guard_pass_after_pass_restarts_nothing env env' w1 w5 Hsame).
    rewrite Hs5. simpl. rewrite Hw4, Hw3. reflexivity. }
  rewrite Hzero in Hc5. unfold events_of in Hc5. clear Heqinner.
  destruct (outcome inner) as [[]|e].
  - apply post_bind, post_modify.
    apply post_bind, post_modify.
    apply post_bind, post_modify.
    apply post_bind, post_emit.
    apply post_emit.
    tally; try (rewrite Hc5; lia).
  - tally; try (rewrite Hc5; lia).
Qed.

Lemma startup_requests_at_most_one_restart_witness :
  count is_restart
    (events_of (Hacs.startup_tasks Sample.env_malware Sample.env_malware
                  (Sample.world_with [Sample.theme_x] []))) <= 1.
Proof.
  apply (@startup_requests_at_most_one_restart Sample.env_malware
           Sample.env_malware (Sample.world_with [Sample.theme_x] [])).
  reflexivity.
Defined.
